(** * NESTICLE-TK (emuai.py): a shallow embedding of the Tk front-end

    The program is a thin shell around the [nes_py] emulation engine:
    a wrapper object ([NESSystem]) and a Tk application
    ([NesticleTkApp]) that owns the buttons, the status line, the key
    table and the timer-driven frame loop.  The engine, PIL and the
    canvas are external; they are taken as an interface ([Platform])
    whose operations may raise.  Every method of the source is a
    computation in a state-and-exception monad over one [World] record:
    the attributes of the application object, the configuration of its
    widgets, the pending Tk timers and a chronological trace of the
    calls made to the outside. *)

From Stdlib Require Import ZArith Ascii String.
From stdpp Require Import gmap strings list.

Open Scope Z_scope.
Open Scope string_scope.

(** ** Exceptions and results *)

(** A Python exception object of class [Exception]; [str e] is what an
    f-string prints for it. *)
Inductive exn : Type := Exception (msg : string).

Definition str (e : exn) : string := match e with Exception m => m end.

Inductive Result (A : Type) : Type :=
| Ok (a : A)
| Raise (e : exn).
Arguments Ok {A} a.
Arguments Raise {A} e.

(** ** The external collaborators

    [NESEnv], [env_reset], [env_step], [env_close] and [env_screen] are
    [nes_py.NESEnv(path)], [env.reset()], [env.step(action)],
    [env.close()] and the attribute [env.screen].  A call returns the
    session as the engine left it, together with the exception it
    raised, if any.  [PhotoImage] stands for
    [ImageTk.PhotoImage(Image.fromarray(frame))] and [create_image] for
    [canvas.create_image(0, 0, anchor='nw', image=...)]. *)
Class Platform : Type := {
  session : Type;
  frame : Type;
  image : Type;
  NESEnv : string → Result session;
  env_reset : session → session * option exn;
  env_step : session → Z → session * option exn;
  env_close : session → session * option exn;
  env_screen : session → option frame;
  frame_shape : frame → string;
  PhotoImage : frame → Result image;
  create_image : image → option exn
}.

(** ** os.path.basename (posixpath): the text after the last slash *)

Fixpoint has_slash (p : string) : bool :=
  match p with
  | EmptyString => false
  | String c p' => if Ascii.eqb c "/"%char then true else has_slash p'
  end.

Fixpoint basename (p : string) : string :=
  match p with
  | EmptyString => EmptyString
  | String c p' =>
      if Ascii.eqb c "/"%char then basename p'
      else if has_slash p' then basename p' else p
  end.

(** ** The key table of [NesticleTkApp.__init__] *)

Definition keymap : gmap string Z :=
  list_to_map
    [("Right", 1); ("Left", 2); ("Down", 4); ("Up", 8);
     ("Return", 16); ("Shift_L", 32); ("x", 64); ("z", 128)].

(** [self.keymap.get(k, 0)] *)
Definition keymap_get (k : string) (d : Z) : Z := default d (keymap !! k).

(** Tk's [state] option of a button. *)
Inductive tk_state : Type := NORMAL | DISABLED.

Section Model.
Context `{Platform}.

(** ** Objects *)

(** A [NESSystem] object.  [hid] is the identity of the object (Python's
    [id(self)]): it is what tells the handle of the first ROM from the
    handle of the second. *)
Record NESSystem : Type := {
  hid : nat;
  rom_path : string;
  env : option session
}.

Definition set_env (e : option session) (n : NESSystem) : NESSystem :=
  {| hid := hid n; rom_path := rom_path n; env := e |}.

(** What the program does to the outside, in the order it does it. *)
Inductive effect : Type :=
| Print (msg : string)                 (* print(msg) *)
| EnvNew (h : nat) (path : string)     (* nes_py.NESEnv(path), in the constructor of handle h *)
| EnvReset (h : nat)                   (* env.reset() of handle h *)
| EnvStep (h : nat) (action : Z)       (* env.step(action) of handle h *)
| EnvClose (h : nat)                   (* env.close() of handle h *)
| Opened (h : nat)                     (* NESSystem(path) returned handle h *)
| CreateImage (f : frame)              (* the frame reached the canvas *)
| After (id : nat) (ms : Z)            (* master.after(ms, self.schedule_frame) = id *)
| AfterCancel (id : nat)               (* master.after_cancel(id) *)
| ShowError (title msg : string)       (* messagebox.showerror *)
| Destroy.                             (* master.destroy() *)

(** The attributes of the [NesticleTkApp] object, the options of its
    widgets that the program reads or writes, and the part of Tk it
    relies on: the pending [after] callbacks and whether the window
    still exists. *)
Record World : Type := {
  nes : option NESSystem;
  current_action : Z;
  after_id : option nat;
  frame_image : option image;
  keys_pressed : gset string;
  start_btn_text : string;
  start_btn_state : tk_state;
  reset_btn_state : tk_state;
  status : string;
  timers : list nat;
  next_timer : nat;
  destroyed : bool;
  next_hid : nat;
  trace : list effect
}.

Definition set_nes (x : option NESSystem) (w : World) : World :=
  {| nes := x; current_action := current_action w; after_id := after_id w;
     frame_image := frame_image w; keys_pressed := keys_pressed w;
     start_btn_text := start_btn_text w; start_btn_state := start_btn_state w;
     reset_btn_state := reset_btn_state w; status := status w;
     timers := timers w; next_timer := next_timer w; destroyed := destroyed w;
     next_hid := next_hid w; trace := trace w |}.

Definition set_current_action (x : Z) (w : World) : World :=
  {| nes := nes w; current_action := x; after_id := after_id w;
     frame_image := frame_image w; keys_pressed := keys_pressed w;
     start_btn_text := start_btn_text w; start_btn_state := start_btn_state w;
     reset_btn_state := reset_btn_state w; status := status w;
     timers := timers w; next_timer := next_timer w; destroyed := destroyed w;
     next_hid := next_hid w; trace := trace w |}.

Definition set_after_id (x : option nat) (w : World) : World :=
  {| nes := nes w; current_action := current_action w; after_id := x;
     frame_image := frame_image w; keys_pressed := keys_pressed w;
     start_btn_text := start_btn_text w; start_btn_state := start_btn_state w;
     reset_btn_state := reset_btn_state w; status := status w;
     timers := timers w; next_timer := next_timer w; destroyed := destroyed w;
     next_hid := next_hid w; trace := trace w |}.

Definition set_frame_image (x : option image) (w : World) : World :=
  {| nes := nes w; current_action := current_action w; after_id := after_id w;
     frame_image := x; keys_pressed := keys_pressed w;
     start_btn_text := start_btn_text w; start_btn_state := start_btn_state w;
     reset_btn_state := reset_btn_state w; status := status w;
     timers := timers w; next_timer := next_timer w; destroyed := destroyed w;
     next_hid := next_hid w; trace := trace w |}.

Definition set_keys_pressed (x : gset string) (w : World) : World :=
  {| nes := nes w; current_action := current_action w; after_id := after_id w;
     frame_image := frame_image w; keys_pressed := x;
     start_btn_text := start_btn_text w; start_btn_state := start_btn_state w;
     reset_btn_state := reset_btn_state w; status := status w;
     timers := timers w; next_timer := next_timer w; destroyed := destroyed w;
     next_hid := next_hid w; trace := trace w |}.

Definition set_start_btn_text (x : string) (w : World) : World :=
  {| nes := nes w; current_action := current_action w; after_id := after_id w;
     frame_image := frame_image w; keys_pressed := keys_pressed w;
     start_btn_text := x; start_btn_state := start_btn_state w;
     reset_btn_state := reset_btn_state w; status := status w;
     timers := timers w; next_timer := next_timer w; destroyed := destroyed w;
     next_hid := next_hid w; trace := trace w |}.

Definition set_start_btn_state (x : tk_state) (w : World) : World :=
  {| nes := nes w; current_action := current_action w; after_id := after_id w;
     frame_image := frame_image w; keys_pressed := keys_pressed w;
     start_btn_text := start_btn_text w; start_btn_state := x;
     reset_btn_state := reset_btn_state w; status := status w;
     timers := timers w; next_timer := next_timer w; destroyed := destroyed w;
     next_hid := next_hid w; trace := trace w |}.

Definition set_reset_btn_state (x : tk_state) (w : World) : World :=
  {| nes := nes w; current_action := current_action w; after_id := after_id w;
     frame_image := frame_image w; keys_pressed := keys_pressed w;
     start_btn_text := start_btn_text w; start_btn_state := start_btn_state w;
     reset_btn_state := x; status := status w;
     timers := timers w; next_timer := next_timer w; destroyed := destroyed w;
     next_hid := next_hid w; trace := trace w |}.

Definition set_status (x : string) (w : World) : World :=
  {| nes := nes w; current_action := current_action w; after_id := after_id w;
     frame_image := frame_image w; keys_pressed := keys_pressed w;
     start_btn_text := start_btn_text w; start_btn_state := start_btn_state w;
     reset_btn_state := reset_btn_state w; status := x;
     timers := timers w; next_timer := next_timer w; destroyed := destroyed w;
     next_hid := next_hid w; trace := trace w |}.

Definition set_timers (x : list nat) (w : World) : World :=
  {| nes := nes w; current_action := current_action w; after_id := after_id w;
     frame_image := frame_image w; keys_pressed := keys_pressed w;
     start_btn_text := start_btn_text w; start_btn_state := start_btn_state w;
     reset_btn_state := reset_btn_state w; status := status w;
     timers := x; next_timer := next_timer w; destroyed := destroyed w;
     next_hid := next_hid w; trace := trace w |}.

Definition set_next_timer (x : nat) (w : World) : World :=
  {| nes := nes w; current_action := current_action w; after_id := after_id w;
     frame_image := frame_image w; keys_pressed := keys_pressed w;
     start_btn_text := start_btn_text w; start_btn_state := start_btn_state w;
     reset_btn_state := reset_btn_state w; status := status w;
     timers := timers w; next_timer := x; destroyed := destroyed w;
     next_hid := next_hid w; trace := trace w |}.

Definition set_destroyed (x : bool) (w : World) : World :=
  {| nes := nes w; current_action := current_action w; after_id := after_id w;
     frame_image := frame_image w; keys_pressed := keys_pressed w;
     start_btn_text := start_btn_text w; start_btn_state := start_btn_state w;
     reset_btn_state := reset_btn_state w; status := status w;
     timers := timers w; next_timer := next_timer w; destroyed := x;
     next_hid := next_hid w; trace := trace w |}.

Definition set_next_hid (x : nat) (w : World) : World :=
  {| nes := nes w; current_action := current_action w; after_id := after_id w;
     frame_image := frame_image w; keys_pressed := keys_pressed w;
     start_btn_text := start_btn_text w; start_btn_state := start_btn_state w;
     reset_btn_state := reset_btn_state w; status := status w;
     timers := timers w; next_timer := next_timer w; destroyed := destroyed w;
     next_hid := x; trace := trace w |}.

Definition set_trace (x : list effect) (w : World) : World :=
  {| nes := nes w; current_action := current_action w; after_id := after_id w;
     frame_image := frame_image w; keys_pressed := keys_pressed w;
     start_btn_text := start_btn_text w; start_btn_state := start_btn_state w;
     reset_btn_state := reset_btn_state w; status := status w;
     timers := timers w; next_timer := next_timer w; destroyed := destroyed w;
     next_hid := next_hid w; trace := x |}.

(** ** The monad: state that survives an exception *)

Definition M (A : Type) : Type := World → Result A * World.

Definition ret {A} (a : A) : M A := λ w, (Ok a, w).

Definition bind {A B} (m : M A) (k : A → M B) : M B := λ w,
  match m w with
  | (Ok a, w') => k a w'
  | (Raise e, w') => (Raise e, w')
  end.

Global Instance M_ret : MRet M := @ret.
Global Instance M_bind : MBind M := λ A B k m, bind m k.

Definition raise {A} (e : exn) : M A := λ w, (Raise e, w).

(** [try: body / except Exception as e: handler e] *)
Definition try_except {A} (body : M A) (handler : exn → M A) : M A := λ w,
  match body w with
  | (Ok a, w') => (Ok a, w')
  | (Raise e, w') => handler e w'
  end.

Definition gets {A} (f : World → A) : M A := λ w, (Ok (f w), w).
Definition modify (f : World → World) : M unit := λ w, (Ok tt, f w).
Definition emit (e : effect) : M unit := modify (λ w, set_trace (trace w ++ [e]) w).
Definition lift {A} (r : Result A) : M A := λ w, (r, w).

(** ** Tk primitives *)

Definition print (msg : string) : M unit := emit (Print msg).

(** [master.after(ms, self.schedule_frame)]: a fresh identifier, and the
    callback is pending until it fires or is cancelled. *)
Definition tk_after (ms : Z) : M nat := λ w,
  let id := next_timer w in
  (Ok id,
   set_trace (trace w ++ [After id ms])
     (set_timers (timers w ++ [id]) (set_next_timer (S id) w))).

(** [master.after_cancel(id)]: cancelling an identifier that is not
    pending does nothing. *)
Definition tk_after_cancel (id : nat) : M unit := λ w,
  (Ok tt,
   set_trace (trace w ++ [AfterCancel id])
     (set_timers (filter (λ t, t ≠ id) (timers w)) w)).

Definition tk_destroy : M unit :=
  emit Destroy;; modify (set_destroyed true).

Definition AttributeError (attr : string) : exn :=
  Exception ("'NoneType' object has no attribute '" ++ attr ++ "'").

(** ** class NESSystem

    The methods other than the constructor run on the object that the
    application holds in [self.nes], the only reference to a
    [NESSystem] the program keeps; a caller that finds [self.nes] to be
    [None] fails on the attribute access before the method is entered
    ([on_nes]). *)

(** [self.env.<method>(...)]: the call is recorded, the session is
    updated in place, and what the engine raised is raised. *)
Definition self_env_call (attr : string) (ev : nat → effect)
    (f : session → session * option exn) : M unit := λ w,
  match nes w with
  | Some n =>
      match env n with
      | Some s =>
          let '(s', r) := f s in
          let w' := set_nes (Some (set_env (Some s') n))
                      (set_trace (trace w ++ [ev (hid n)]) w) in
          match r with
          | Some e => (Raise e, w')
          | None => (Ok tt, w')
          end
      | None => (Raise (AttributeError attr), w)
      end
  | None => (Raise (AttributeError attr), w)
  end.

(** The attribute [self.env] of the object in [self.nes]. *)
Definition self_env : M (option session) :=
  gets (λ w, match nes w with Some n => env n | None => None end).

Definition NESSystem_init (rom_path : string) : M NESSystem :=
  h ← gets next_hid;
  modify (set_next_hid (S h));;
  try_except
    (emit (EnvNew h rom_path);;
     s ← lift (NESEnv rom_path);
     emit (EnvReset h);;
     let '(s', r) := env_reset s in
     (if r is Some e then raise e else ret tt);;
     print ("[NESSystem] Initialized with ROM: " ++ basename rom_path);;
     emit (Opened h);;
     ret {| hid := h; rom_path := rom_path; env := Some s' |})
    (λ e,
     print ("[NESSystem] Error initializing nes-py: " ++ str e);;
     raise e).

Definition NESSystem_reset : M unit :=
  e ← self_env;
  if e is Some _ then
    self_env_call "reset" EnvReset env_reset;;
    print "[NESSystem] ROM reset"
  else ret tt.

Definition NESSystem_step (action : Z) : M (option frame * bool) :=
  try_except
    (self_env_call "step" (λ h, EnvStep h action) (λ s, env_step s action);;
     e ← self_env;
     let frame := e ≫= env_screen in
     (if frame is None then print "[NESSystem] WARNING: Frame is None!"
      else ret tt);;
     ret (frame, false))
    (λ e,
     print ("[NESSystem] step() failed: " ++ str e);;
     ret (None, true)).

Definition NESSystem_close : M unit :=
  e ← self_env;
  if e is Some _ then
    self_env_call "close" EnvClose env_close;;
    print "[NESSystem] Closed NES environment";;
    modify (λ w, set_nes (set_env None <$> nes w) w)
  else ret tt.

(** [self.nes.<method>(...)] *)
Definition on_nes {A} (attr : string) (m : M A) : M A :=
  n ← gets nes;
  if n is Some _ then m else raise (AttributeError attr).

End Model.

Section App.
Context `{Platform}.

(** ** class NesticleTkApp *)

(** The state [__init__] leaves behind: no ROM, both buttons disabled. *)
Definition init_world : World :=
  {| nes := None; current_action := 0; after_id := None;
     frame_image := None; keys_pressed := ∅;
     start_btn_text := "Start"; start_btn_state := DISABLED;
     reset_btn_state := DISABLED; status := "No ROM loaded";
     timers := []; next_timer := 0%nat; destroyed := false;
     next_hid := 0%nat; trace := [] |}.

Definition render_frame (frame : frame) : M unit :=
  try_except
    (img ← lift (PhotoImage frame);
     modify (set_frame_image (Some img));;
     (if create_image img is Some e then raise e else ret tt);;
     emit (CreateImage frame))
    (λ e, print ("[App] Render frame failed: " ++ str e)).

(** [path] is what [filedialog.askopenfilename] returned: the empty
    string when the dialog was dismissed. *)
Definition load_rom (path : string) : M unit :=
  if bool_decide (path = "") then ret tt
  else
    n ← gets nes;
    (if n is Some _ then
       on_nes "close" NESSystem_close;;
       modify (set_nes None)
     else ret tt);;
    try_except
      (n ← NESSystem_init path;
       modify (set_nes (Some n));;
       e ← on_nes "env" self_env;
       s ← (if e is Some s then ret s else raise (AttributeError "screen"));
       (if env_screen s is Some frame then
          render_frame frame;;
          print ("[App] Got initial frame: " ++ frame_shape frame)
        else print "[App] Initial frame is None");;
       modify (set_status ("Loaded: " ++ basename path));;
       modify (set_start_btn_state NORMAL);;
       modify (set_reset_btn_state NORMAL))
      (λ e,
       emit (ShowError "Error" ("Failed to load ROM: " ++ str e));;
       modify (set_status "Load failed")).

(** The loop of [update_action] visits the held keys in the order the
    set yields them. *)
Definition update_action : M unit :=
  ks ← gets keys_pressed;
  let action := set_fold (λ k action, Z.lor action (keymap_get k 0)) 0 ks in
  modify (set_current_action action).

Definition on_key_press (keysym : string) : M unit :=
  if keymap !! keysym is Some _ then
    modify (λ w, set_keys_pressed ({[keysym]} ∪ keys_pressed w) w);;
    update_action
  else ret tt.

Definition on_key_release (keysym : string) : M unit :=
  ks ← gets keys_pressed;
  if keymap !! keysym is Some _ then
    if bool_decide (keysym ∈ ks) then
      modify (λ w, set_keys_pressed (keys_pressed w ∖ {[keysym]}) w);;
      update_action
    else ret tt
  else ret tt.

Definition schedule_frame : M unit :=
  action ← gets current_action;
  '(frame, done) ← on_nes "step" (NESSystem_step action);
  match frame with
  | Some f =>
      render_frame f;;
      if negb done then
        id ← tk_after 16;
        modify (set_after_id (Some id))
      else
        modify (set_status "Game Over");;
        modify (set_start_btn_text "Start");;
        modify (set_after_id None)
  | None =>
      print "[App] Frame from step() is None";;
      modify (set_status "Frame error");;
      modify (set_after_id None)
  end.

Definition toggle_run : M unit :=
  n ← gets nes;
  if n is None then ret tt
  else
    a ← gets after_id;
    match a with
    | Some id =>
        tk_after_cancel id;;
        modify (set_after_id None);;
        modify (set_start_btn_text "Start");;
        modify (set_status "Paused")
    | None =>
        modify (set_start_btn_text "Pause");;
        modify (set_status "Running");;
        schedule_frame
    end.

Definition reset_rom : M unit :=
  n ← gets nes;
  if n is None then ret tt
  else
    a ← gets after_id;
    (if a is Some id then
       tk_after_cancel id;;
       modify (set_after_id None)
     else ret tt);;
    on_nes "reset" NESSystem_reset;;
    e ← on_nes "env" self_env;
    s ← (if e is Some s then ret s else raise (AttributeError "screen"));
    (if env_screen s is Some frame then render_frame frame else ret tt);;
    modify (set_start_btn_text "Start");;
    modify (set_status "Reset").

Definition on_close : M unit :=
  a ← gets after_id;
  (if a is Some id then tk_after_cancel id else ret tt);;
  n ← gets nes;
  (if n is Some _ then on_nes "close" NESSystem_close else ret tt);;
  tk_destroy.

(** ** The Tk main loop

    What can reach the program once [mainloop] runs: a click on one of
    the three buttons (for Load ROM, together with the answer of the
    file dialog), a key going down or up, the pending [after] callback
    coming due, and the window manager's close request. *)
Inductive event : Type :=
| ClickLoadRom (path : string)
| ClickStart
| ClickReset
| KeyPress (keysym : string)
| KeyRelease (keysym : string)
| TimerFire
| WindowClose.

(** A disabled button does not invoke its command; a timer comes due
    only while it is pending, and is no longer pending when its
    callback runs. *)
Definition dispatch (ev : event) : M unit :=
  match ev with
  | ClickLoadRom path => load_rom path
  | ClickStart =>
      st ← gets start_btn_state;
      if st is NORMAL then toggle_run else ret tt
  | ClickReset =>
      st ← gets reset_btn_state;
      if st is NORMAL then reset_rom else ret tt
  | KeyPress k => on_key_press k
  | KeyRelease k => on_key_release k
  | TimerFire =>
      ts ← gets timers;
      match ts with
      | _ :: ts' => modify (set_timers ts');; schedule_frame
      | [] => ret tt
      end
  | WindowClose => on_close
  end.

(** Tk reports an exception that escapes a callback and carries on with
    the state as the callback left it; nothing is delivered to a
    destroyed window. *)
Definition handle (w : World) (ev : event) : World :=
  if destroyed w then w else (dispatch ev w).2.

Definition run (evs : list event) (w : World) : World := foldl handle w evs.

Definition reachable (w : World) : Prop := ∃ evs, w = run evs init_world.

(** ** Reading a trace *)

Definition is_step (e : effect) : bool :=
  match e with EnvStep _ _ => true | _ => false end.
Definition is_paint (e : effect) : bool :=
  match e with CreateImage _ => true | _ => false end.
Definition is_close_of (h : nat) (e : effect) : bool :=
  match e with EnvClose h' => bool_decide (h' = h) | _ => false end.
Definition is_new (e : effect) : bool :=
  match e with EnvNew _ _ => true | _ => false end.
Definition is_opened (e : effect) : bool :=
  match e with Opened _ => true | _ => false end.

Definition count (p : effect → bool) (t : list effect) : nat :=
  length (filter (λ e, p e = true) t).

(** The handles that are open after a trace: opened by a constructor
    that returned, and [close] not yet called on them. *)
Definition alive_step (l : list nat) (e : effect) : list nat :=
  match e with
  | Opened h => h :: l
  | EnvClose h => filter (λ h', h' ≠ h) l
  | _ => l
  end.

Definition alive (t : list effect) : list nat := foldl alive_step [] t.

(** ** Invariants of the running program *)

(** The bitmask a held-key set stands for: the loop of [update_action]. *)
Definition bitmask (ks : gset string) : Z :=
  set_fold (λ k action, Z.lor action (keymap_get k 0)) 0 ks.

(** The OR of the flags of an explicit list of keys. *)
Definition or_flags (l : list string) : Z :=
  foldr (λ k acc, Z.lor (keymap_get k 0) acc) 0 l.

Definition inv_keys (w : World) : Prop :=
  keys_pressed w ⊆ dom keymap ∧ current_action w = bitmask (keys_pressed w).

(** At most the callback named by [after_id] is pending. *)
Definition inv_timer (w : World) : Prop :=
  timers w = [] ∨ ∃ id, timers w = [id] ∧ after_id w = Some id.

(** While a handle is held both buttons are enabled, and the handle is
    open for as long as the window exists. *)
Definition inv_loaded (w : World) : Prop :=
  ∀ n, nes w = Some n →
    start_btn_state w = NORMAL ∧ reset_btn_state w = NORMAL ∧
    (destroyed w = false → is_Some (env n)).

(** Starting with the handles [l] open, no moment of [t] has more than
    one handle open. *)
Fixpoint safe (l : list nat) (t : list effect) : Prop :=
  match t with
  | [] => True
  | e :: t' => (length (alive_step l e) ≤ 1)%nat ∧ safe (alive_step l e) t'
  end.

(** The one open handle, if any, is the one the application holds. *)
Definition inv_alive (w : World) : Prop :=
  safe [] (trace w) ∧
  (alive (trace w) = [] ∨
   ∃ n, nes w = Some n ∧ is_Some (env n) ∧ alive (trace w) = [hid n]).

End App.

(** ** Runs of the frame loop *)

Section Runs.
Context `{Platform}.

(** [n] ticks of the frame loop coming due one after the other. *)
Definition ticks (n : nat) : list event := replicate n TimerFire.

(** An engine whose [step] never raises and always shows a frame, and
    a canvas that takes every frame. *)
Definition steady : Prop :=
  (∀ s a, (env_step s a).2 = None)
  ∧ (∀ s, is_Some (env_screen s))
  ∧ (∀ f, ∃ img, PhotoImage f = Ok img ∧ create_image img = None).

(** The action passed to [env.step] fits the 8 controller bits. *)
Definition byte_step (e : effect) : Prop :=
  match e with EnvStep _ a => 0 ≤ a < 256 | _ => True end.

End Runs.

(** ** A stub engine

    A session is the number of [step] calls it has received.  The call
    numbered [raise_on] raises; the screen is [None] after [blank_on]
    calls; the canvas accepts a frame when [paintable].  The engine
    refuses the path [rom.bad]. *)
Definition stub_NESEnv (path : string) : Result nat :=
  if bool_decide (path = "rom.bad")
  then Raise (Exception "not a ROM")
  else Ok 0%nat.

Definition stub (raise_on blank_on : option nat) (paintable : bool) : Platform :=
  {| session := nat;
     frame := nat;
     image := nat;
     NESEnv := stub_NESEnv;
     env_reset := λ _, (0%nat, None);
     env_step := λ s _,
       (S s, if bool_decide (raise_on = Some (S s))
             then Some (Exception "engine fault") else None);
     env_close := λ s, (s, None);
     env_screen := λ s, if bool_decide (blank_on = Some s) then None else Some s;
     frame_shape := λ _, "(240, 256, 3)";
     PhotoImage := λ f, if paintable then Ok f else Raise (Exception "bad buffer");
     create_image := λ _, None |}.

(** ** Scenarios on the stub engine *)

Definition healthy : Platform := stub None None true.
Definition faulty : Platform := stub (Some 3%nat) None true.
Definition blanking : Platform := stub None (Some 2%nat) true.
Definition unpaintable : Platform := stub None None false.

(** A ROM has been loaded; Start has been pressed; a mapped key is held;
    the second and the third tick of a run have come due. *)
Definition loaded (P : Platform) : World :=
  run [ClickLoadRom "game.nes"] init_world.
Definition running (P : Platform) : World :=
  run [ClickLoadRom "game.nes"; ClickStart] init_world.
Definition holding_z (P : Platform) : World :=
  run [ClickLoadRom "game.nes"; KeyPress "z"] init_world.
Definition second_tick (P : Platform) : World :=
  run [ClickLoadRom "game.nes"; ClickStart; TimerFire] init_world.
Definition third_tick (P : Platform) : World :=
  run [ClickLoadRom "game.nes"; ClickStart; TimerFire; TimerFire] init_world.

(** An engine whose [close] always raises, and whose [reset] raises
    once the engine has stepped. *)
Definition jammed : Platform :=
  {| session := nat;
     frame := nat;
     image := nat;
     NESEnv := stub_NESEnv;
     env_reset := λ s,
       match s with
       | O => (0%nat, None)
       | S _ => (s, Some (Exception "reset fault"))
       end;
     env_step := λ s _, (S s, None);
     env_close := λ s, (s, Some (Exception "close fault"));
     env_screen := λ s, Some s;
     frame_shape := λ _, "(240, 256, 3)";
     PhotoImage := λ f, Ok f;
     create_image := λ _, None |}.

(** Start is pressed while the key z is held. *)
Definition started_holding_z (P : Platform) : World :=
  run [ClickLoadRom "game.nes"; KeyPress "z"; ClickStart] init_world.

(** ** Symbolic execution of the methods *)

(** Unfolding the monad. *)
Ltac unfold_monad :=
  unfold mbind, M_bind, mret, M_ret, bind, ret, raise, try_except, gets,
    modify, emit, lift, print in *.

Ltac exec_step :=
  match goal with
  | |- context [match ?x with _ => _ end] =>
      lazymatch x with
      | context [match _ with _ => _ end] => fail
      | _ => destruct x eqn:?
      end
  end.

Ltac unfold_methods :=
  unfold handle, dispatch, load_rom, toggle_run, schedule_frame, reset_rom,
    on_close, on_key_press, on_key_release, update_action, render_frame,
    on_nes, NESSystem_init, NESSystem_reset, NESSystem_step, NESSystem_close,
    self_env, self_env_call, tk_after, tk_after_cancel, tk_destroy in *.

Ltac exec :=
  unfold_methods; unfold_monad; simpl in *;
  repeat (exec_step; simpl in *; try discriminate; simplify_eq/=).

Section Proofs.
Context `{Platform}.

Lemma reachable_ind (P : World → Prop) :
  P init_world →
  (∀ w ev, reachable w → P w → P (handle w ev)) →
  ∀ w, reachable w → P w.
Proof.
  intros H0 Hstep w [evs ->].
  induction evs as [|ev evs IH] using rev_ind.
  - exact H0.
  - unfold run. rewrite foldl_app. simpl. apply Hstep; [by exists evs | exact IH].
Qed.

Lemma filter_ne_self (id : nat) : filter (λ t, t ≠ id) [id] = [].
Proof. rewrite filter_cons, filter_nil. by case_decide. Qed.

Lemma filter_ne_nil (id : nat) : filter (λ t, t ≠ id) [] = [].
Proof. done. Qed.

Lemma inv_timer_step w ev : inv_timer w → inv_timer (handle w ev).
Proof.
  unfold inv_timer. intros Hw. destruct ev.
  all: (exec; destruct Hw as [Hw | (id & Hw & Ha)]; simplify_eq/=; rewrite ?Hw, ?filter_ne_self; simpl; eauto).
Qed.

Lemma inv_loaded_step w ev : inv_loaded w → inv_loaded (handle w ev).
Proof.
  unfold inv_loaded. intros Hw. destruct ev.
  all: (exec; intros; simplify_eq/=; eauto;
             try (edestruct Hw as (?&?&?); [done|]; simplify_eq/=; eauto);
             try (repeat split; eauto; done)).
Qed.


Lemma handle_keys_frame w ev :
  match ev with KeyPress _ | KeyRelease _ => False | _ => True end →
  keys_pressed (handle w ev) = keys_pressed w
  ∧ current_action (handle w ev) = current_action w.
Proof.
  destruct ev; intros []; (exec; auto).
Qed.

Lemma inv_keys_step w ev : inv_keys w → inv_keys (handle w ev).
Proof.
  unfold inv_keys. intros [Hsub Hact].
  destruct ev as [p| | |k|k| |];
    try (by destruct (handle_keys_frame w (ClickLoadRom p) I) as [-> ->]);
    try (by edestruct (handle_keys_frame w) as [-> ->]; [|done]).
  all: unfold bitmask in *; exec; try done.
  - split; [|done]. apply union_least; [|done].
    apply singleton_subseteq_l, elem_of_dom. eauto.
  - split; [|done]. by apply subseteq_difference_l.
Qed.

Lemma alive_snoc t e : alive (t ++ [e]) = alive_step (alive t) e.
Proof. unfold alive. by rewrite foldl_app. Qed.

Lemma safe_app l t1 t2 :
  safe l (t1 ++ t2) ↔ safe l t1 ∧ safe (foldl alive_step l t1) t2.
Proof.
  revert l. induction t1 as [|e t1 IH]; intros l; simpl.
  - tauto.
  - rewrite IH. tauto.
Qed.

Lemma safe_snoc t e :
  safe [] (t ++ [e]) ↔ safe [] t ∧ (length (alive_step (alive t) e) ≤ 1)%nat.
Proof. rewrite safe_app. simpl. unfold alive. tauto. Qed.

Lemma safe_alive t : safe [] t → (length (alive t) ≤ 1)%nat.
Proof.
  induction t as [|e t IH] using rev_ind; [simpl; lia|].
  rewrite safe_snoc, alive_snoc. tauto.
Qed.

Lemma safe_prefix t p : safe [] t → p `prefix_of` t → (length (alive p) ≤ 1)%nat.
Proof.
  intros Hs [k ->]. apply safe_alive. apply safe_app in Hs. tauto.
Qed.

Ltac alive_simpl :=
  repeat (rewrite ?safe_snoc, ?alive_snoc; simpl).

Lemma inv_alive_step w ev : inv_alive w → inv_alive (handle w ev).
Proof.
  unfold inv_alive. intros [Hs Hal]. destruct ev.
  all: (exec; alive_simpl;
    destruct Hal as [Hal | (m & Hm & [? He] & Hal)]; simplify_eq/=;
    try congruence;
    rewrite ?Hal; simpl; rewrite ?filter_ne_self, ?filter_nil; simpl;
    (split;
     [ repeat split; auto with lia
     | first [ by left
             | right; eexists; split; [done|]; split; [simpl; eauto | done]
             | right; eauto ] ])).
Qed.

(** ** What holds in every reachable world *)

Lemma reachable_inv_timer w : reachable w → inv_timer w.
Proof.
  apply reachable_ind; [by left|]. intros. by apply inv_timer_step.
Qed.

Lemma reachable_inv_loaded w : reachable w → inv_loaded w.
Proof.
  apply reachable_ind; [by intros n [=]|]. intros. by apply inv_loaded_step.
Qed.

Lemma reachable_inv_keys w : reachable w → inv_keys w.
Proof.
  apply reachable_ind; [|intros; by apply inv_keys_step].
  split; [apply empty_subseteq|]. unfold bitmask. simpl. by rewrite set_fold_empty.
Qed.

Lemma reachable_inv_alive w : reachable w → inv_alive w.
Proof.
  apply reachable_ind; [|intros; by apply inv_alive_step].
  split; [exact I | by left].
Qed.

Lemma reachable_handle w ev : reachable w → reachable (handle w ev).
Proof.
  intros [evs ->]. exists (evs ++ [ev])%list. unfold run. by rewrite foldl_app.
Qed.

(** ** The key table and the bitmask *)

Lemma or_fold_perm (l1 l2 : list string) :
  l1 ≡ₚ l2 →
  foldr (λ k action, Z.lor action (keymap_get k 0)) 0 l1 =
  foldr (λ k action, Z.lor action (keymap_get k 0)) 0 l2.
Proof.
  induction 1 as [|k l1 l2 _ IH|k1 k2 l|l1 l2 l3 _ IH1 _ IH2]; simpl.
  - done.
  - by rewrite IH.
  - rewrite <- !Z.lor_assoc. f_equal. apply Z.lor_comm.
  - by rewrite IH1.
Qed.

Lemma or_fold_or_flags (l : list string) :
  foldr (λ k action, Z.lor action (keymap_get k 0)) 0 l = or_flags l.
Proof.
  induction l as [|k l IH]; simpl; [done|]. rewrite IH. apply Z.lor_comm.
Qed.

Lemma bitmask_or_flags (ks : gset string) (l : list string) :
  NoDup l → (∀ k, k ∈ l ↔ k ∈ ks) → bitmask ks = or_flags l.
Proof.
  intros Hnd Hl. unfold bitmask, set_fold. simpl.
  rewrite <- or_fold_or_flags. apply or_fold_perm.
  apply NoDup_Permutation; [apply NoDup_elements | done |].
  intros k. rewrite elem_of_elements. by rewrite Hl.
Qed.

Lemma handle_key_press w k :
  destroyed w = false → is_Some (keymap !! k) →
  keys_pressed (handle w (KeyPress k)) = {[k]} ∪ keys_pressed w
  ∧ destroyed (handle w (KeyPress k)) = false.
Proof.
  intros Hd [z Hz]. unfold handle, dispatch, on_key_press, update_action.
  unfold_monad. rewrite Hd, Hz. simpl. done.
Qed.

Lemma run_cons ev evs w : run (ev :: evs) w = run evs (handle w ev).
Proof. reflexivity. Qed.

Lemma run_key_presses (l : list string) w :
  destroyed w = false → Forall (λ k, is_Some (keymap !! k)) l →
  keys_pressed (run (KeyPress <$> l) w) = list_to_set l ∪ keys_pressed w
  ∧ destroyed (run (KeyPress <$> l) w) = false.
Proof.
  revert w. induction l as [|k l IH]; intros w Hd Hl.
  - split; [|done]. simpl. by rewrite (left_id_L ∅ (∪)).
  - inversion_clear Hl as [|? ? Hk Hl'].
    destruct (handle_key_press w k Hd Hk) as [Hks Hd'].
    destruct (IH (handle w (KeyPress k)) Hd' Hl') as [IH1 IH2].
    rewrite fmap_cons, run_cons. split; [|done].
    rewrite IH1, Hks, list_to_set_cons.
    by rewrite (assoc_L (∪)), (comm_L (∪) (list_to_set l)).
Qed.

Lemma held_set_reachable (S : gset string) :
  S ⊆ dom keymap → ∃ w, reachable w ∧ keys_pressed w = S.
Proof.
  intros HS. exists (run (KeyPress <$> elements S) init_world).
  split; [by eexists|].
  destruct (run_key_presses (elements S) init_world) as [Hk _]; [done| |].
  - apply Forall_forall. intros k Hk%elem_of_elements.
    apply elem_of_dom. by apply HS.
  - rewrite Hk. simpl. rewrite (right_id_L ∅ (∪)).
    apply list_to_set_elements_L.
Qed.

(** C3: whatever the controller bitmask, when the engine raises during
    [env.step] the handle's [step] returns [(None, True)]: the
    exception does not reach the caller. *)
Theorem NESSystem_step_engine_raises (w : World) (n : NESSystem)
    (s s' : session) (action : Z) (e : exn) :
  nes w = Some n →
  env n = Some s →
  env_step s action = (s', Some e) →
  (NESSystem_step action w).1 = Ok (None, true).
Proof.
  intros Hn Hs He.
  unfold NESSystem_step, self_env_call. unfold_monad.
  rewrite Hn, Hs, He. reflexivity.
Qed.


(** C10: [step] reports [done = False] whenever the engine call
    returns, whatever the session then shows, and a result with
    [done = True] carries no frame: a frame never comes with
    [done = True]. *)
Theorem NESSystem_step_done_only_without_frame (w : World) (action : Z) :
  (∀ n s s', nes w = Some n → env n = Some s →
     env_step s action = (s', None) →
     (NESSystem_step action w).1 = Ok (env_screen s', false))
  ∧ (∃ r, (NESSystem_step action w).1 = Ok r)
  ∧ (∀ f d, (NESSystem_step action w).1 = Ok (f, d) → d = true → f = None)
  ∧ (∀ f, (NESSystem_step action w).1 ≠ Ok (Some f, true)).
Proof.
  assert (Hshape : ∀ f d, (NESSystem_step action w).1 = Ok (f, d) →
                          d = true → f = None).
  { intros f d. exec; congruence. }
  split; [|split; [|split]].
  - intros n s s' Hn Hs He. exec; congruence.
  - exec; eauto.
  - exact Hshape.
  - intros f Hf. by specialize (Hshape _ _ Hf eq_refl).
Qed.

(** C2: for every set [S] of mapped keys, [S] can be the held set, and
    whenever it is, the current controller bitmask is the bitwise OR of
    the flags of the keys of [S], taken in any order; it is 0 when no
    key is held. *)
Theorem current_action_is_or_of_held_flags (S : gset string) :
  S ⊆ dom keymap →
  (∃ w, reachable w ∧ keys_pressed w = S)
  ∧ (∀ w l, reachable w → keys_pressed w = S →
       NoDup l → (∀ k, k ∈ l ↔ k ∈ S) → current_action w = or_flags l)
  ∧ (∀ w, reachable w → keys_pressed w = ∅ → current_action w = 0).
Proof.
  intros HS. split; [by apply held_set_reachable|]. split.
  - intros w l Hw <- Hnd Hl.
    destruct (reachable_inv_keys w Hw) as [_ ->].
    by apply bitmask_or_flags.
  - intros w Hw He. destruct (reachable_inv_keys w Hw) as [_ ->].
    rewrite He. unfold bitmask. by rewrite set_fold_empty.
Qed.

(** C7: a key-down event for a mapped key that is already held changes
    nothing: the held set, the bitmask and the rest of the state are as
    before. *)
Theorem on_key_press_held_is_noop (w : World) (k : string) :
  reachable w → is_Some (keymap !! k) → k ∈ keys_pressed w →
  keys_pressed (on_key_press k w).2 = keys_pressed w
  ∧ current_action (on_key_press k w).2 = current_action w
  ∧ on_key_press k w = (Ok tt, w).
Proof.
  intros Hw [z Hz] Hk.
  destruct (reachable_inv_keys w Hw) as [_ Hact].
  assert (Hu : {[k]} ∪ keys_pressed w = keys_pressed w).
  { apply subseteq_union_1_L. by apply singleton_subseteq_l. }
  unfold on_key_press, update_action. unfold_monad. rewrite Hz. simpl.
  rewrite Hu. fold (bitmask (keys_pressed w)). rewrite <- Hact.
  by destruct w.
Qed.

(** ** Counting calls in a trace *)

Lemma count_app p (t1 t2 : list effect) :
  count p (t1 ++ t2) = (count p t1 + count p t2)%nat.
Proof. unfold count. by rewrite filter_app, length_app. Qed.

Lemma count_snoc p (t : list effect) e :
  count p (t ++ [e]) = (count p t + if p e then 1 else 0)%nat.
Proof.
  rewrite count_app. f_equal. unfold count.
  rewrite filter_cons, filter_nil. destruct (p e); by case_decide.
Qed.

(** With no callback pending, nothing but the Start control makes the
    program call [env.step]. *)
Lemma quiet_step w ev :
  timers w = [] → ev ≠ ClickStart →
  timers (handle w ev) = []
  ∧ count is_step (trace (handle w ev)) = count is_step (trace w).
Proof.
  intros Hw Hev. destruct ev; try done.
  all: exec; rewrite ?Hw, ?filter_nil, ?count_snoc; simpl; try done;
    split; try done; lia.
Qed.

Lemma quiet_run evs w :
  timers w = [] → Forall (λ ev, ev ≠ ClickStart) evs →
  timers (run evs w) = []
  ∧ count is_step (trace (run evs w)) = count is_step (trace w).
Proof.
  revert w. induction evs as [|ev evs IH]; intros w Hw Hevs; [done|].
  inversion_clear Hevs as [|? ? Hev Hevs'].
  destruct (quiet_step w ev Hw Hev) as [Ht Hc].
  rewrite run_cons. destruct (IH _ Ht Hevs') as [IH1 IH2].
  split; [done|]. by rewrite IH2.
Qed.

(** C8: on a tick whose step yields a frame, the next tick is scheduled
    whether or not the frame could be converted and drawn; a failure of
    the conversion or of the canvas is printed and goes no further. *)
Theorem paint_failure_keeps_the_loop_running (w : World) (n : NESSystem)
    (s s' : session) (f : frame) :
  nes w = Some n → env n = Some s →
  env_step s (current_action w) = (s', None) →
  env_screen s' = Some f →
  (schedule_frame w).1 = Ok tt
  ∧ after_id (schedule_frame w).2 = Some (next_timer w)
  ∧ timers (schedule_frame w).2 = (timers w ++ [next_timer w])%list
  ∧ status (schedule_frame w).2 = status w
  ∧ (∀ e, PhotoImage f = Raise e →
       trace (schedule_frame w).2 =
       (trace w ++ [EnvStep (hid n) (current_action w);
                    Print ("[App] Render frame failed: " ++ str e);
                    After (next_timer w) 16])%list)
  ∧ (∀ img e, PhotoImage f = Ok img → create_image img = Some e →
       trace (schedule_frame w).2 =
       (trace w ++ [EnvStep (hid n) (current_action w);
                    Print ("[App] Render frame failed: " ++ str e);
                    After (next_timer w) 16])%list).
Proof.
  intros Hn Hs He Hf.
  unfold schedule_frame, on_nes, NESSystem_step, self_env_call, self_env,
    render_frame, tk_after.
  unfold_monad. simpl.
  repeat (progress (rewrite ?Hn, ?Hs, ?He, ?Hf; simpl)).
  destruct (PhotoImage f) as [img|e] eqn:Hp; simpl;
    [destruct (create_image img) as [e|] eqn:Hc; simpl|].
  all: repeat split; try done; intros; simplify_eq;
    by rewrite <- ?app_assoc.
Qed.

(** C9: pressing Reset while a ROM is loaded, running or paused,
    cancels the pending tick if there is one, calls the handle's
    [reset], draws the frame the engine then shows, relabels the
    control "Start" and leaves the shell paused: no callback pending,
    [after_id] cleared. *)
Theorem reset_rom_returns_to_paused (w : World) (n : NESSystem)
    (s s' : session) :
  reachable w → destroyed w = false →
  nes w = Some n → env n = Some s → env_reset s = (s', None) →
  timers (handle w ClickReset) = []
  ∧ after_id (handle w ClickReset) = None
  ∧ start_btn_text (handle w ClickReset) = "Start"
  ∧ status (handle w ClickReset) = "Reset"
  ∧ nes (handle w ClickReset) = Some (set_env (Some s') n)
  ∧ ∃ painted,
      trace (handle w ClickReset) =
      (trace w
       ++ (if after_id w is Some id then [AfterCancel id] else [])
       ++ [EnvReset (hid n); Print "[NESSystem] ROM reset"]
       ++ painted)%list
      ∧ (∀ f img, env_screen s' = Some f → PhotoImage f = Ok img →
           create_image img = None → painted = [CreateImage f]).
Proof.
  intros Hw Hd Hn Hs He.
  destruct (reachable_inv_loaded w Hw n Hn) as (_ & Hbtn & _).
  pose proof (reachable_inv_timer w Hw) as Htm.
  unfold_methods. unfold_monad. simpl.
  repeat (progress (rewrite ?Hd, ?Hbtn, ?Hn, ?Hs, ?He; simpl)).
  destruct (after_id w) as [id|] eqn:Ha; simpl;
    repeat (progress (rewrite ?Hd, ?Hbtn, ?Hn, ?Hs, ?He; simpl)).
  all: assert (Ht : filter (λ t, t ≠ default 0%nat (after_id w)) (timers w) = [] ∧ (after_id w = None → timers w = []))
    by (destruct Htm as [-> | (id' & -> & Ha')];
        [ by rewrite filter_nil
        | rewrite Ha'; simpl; rewrite filter_ne_self; split; [done|congruence] ]);
    rewrite Ha in Ht; simpl in Ht; destruct Ht as [Ht1 Ht2].
  all: destruct (env_screen s') as [f|] eqn:Hf; simpl;
    [destruct (PhotoImage f) as [img|e] eqn:Hp; simpl;
     [destruct (create_image img) as [e|] eqn:Hc; simpl|]|].
  all: rewrite ?Ht1, ?Ht2 by done.
  all: repeat split; try done.
  all: rewrite <- ?app_assoc; simpl.
  all: eexists; (split; [reflexivity|]); intros; simplify_eq; congruence.
Qed.

(** X20: a tick whose step returns no frame with [done = False] stops
    the loop (nothing is scheduled, [after_id] is cleared), shows
    "Frame error" and leaves the handle open: the engine is not closed.
    The control stays enabled and keeps the label it had; the next
    press of it takes the Start branch and steps the engine again. *)
Theorem null_frame_stops_the_loop_and_start_retries (w : World)
    (n : NESSystem) (s s' : session) (id : nat) (ts : list nat) :
  reachable w → destroyed w = false → timers w = id :: ts →
  nes w = Some n → env n = Some s →
  env_step s (current_action w) = (s', None) →
  env_screen s' = None →
  status (handle w TimerFire) = "Frame error"
  ∧ after_id (handle w TimerFire) = None
  ∧ timers (handle w TimerFire) = []
  ∧ nes (handle w TimerFire) = Some (set_env (Some s') n)
  ∧ trace (handle w TimerFire) =
      (trace w ++ [EnvStep (hid n) (current_action w);
                   Print "[NESSystem] WARNING: Frame is None!";
                   Print "[App] Frame from step() is None"])%list
  ∧ start_btn_state (handle w TimerFire) = NORMAL
  ∧ start_btn_text (handle w TimerFire) = start_btn_text w
  ∧ count is_step (trace (handle (handle w TimerFire) ClickStart)) =
      S (count is_step (trace (handle w TimerFire))).
Proof.
  intros Hw Hd Ht Hn Hs He Hf.
  destruct (reachable_inv_loaded w Hw n Hn) as (Hbtn & _ & _).
  assert (ts = []) as ->.
  { destruct (reachable_inv_timer w Hw) as [?|(? & ? & _)]; congruence. }
  assert (Hev : handle w TimerFire =
    set_after_id None (set_status "Frame error"
      (set_trace (trace w ++ [EnvStep (hid n) (current_action w);
                   Print "[NESSystem] WARNING: Frame is None!";
                   Print "[App] Frame from step() is None"])
        (set_nes (Some (set_env (Some s') n)) (set_timers [] w))))).
  { unfold_methods. unfold_monad. simpl.
    repeat (progress (rewrite ?Hd, ?Ht, ?Hn, ?Hs, ?He, ?Hf; simpl)).
    by rewrite <- !app_assoc. }
  rewrite Hev. repeat split; try done.
  unfold_methods. unfold_monad. simpl.
  repeat (progress (rewrite ?Hd, ?Hbtn; simpl)).
  exec; rewrite ?count_snoc; simpl; lia.
Qed.

(** C6: in every reachable world at most one handle has been open at
    any moment of the trace so far; and loading a ROM while a handle is
    open calls [close] on that handle first and once: the call opens
    what [load_rom] adds to the trace, and the rest, where the engine
    is asked for the new session, has no further [close]. *)
Theorem load_rom_closes_the_open_handle_first (w : World) :
  reachable w →
  (∀ p, p `prefix_of` trace w → (length (alive p) ≤ 1)%nat)
  ∧ (∀ n s path, nes w = Some n → env n = Some s → path ≠ "" →
       ∃ rest,
         trace (load_rom path w).2 =
           (trace w ++ EnvClose (hid n) :: rest)%list
         ∧ count (is_close_of (hid n)) rest = 0%nat
         ∧ count is_new rest = (if (env_close s).2 is None then 1 else 0)%nat
         ∧ (∀ s0, env_close s = (s0, None) →
              ∃ rest', rest =
                Print "[NESSystem] Closed NES environment"
                :: EnvNew (next_hid w) path :: rest')).
Proof.
  intros Hw. split.
  - intros p Hp. destruct (reachable_inv_alive w Hw) as [Hsafe _].
    by apply (safe_prefix (trace w)).
  - intros n s path Hn Hs Hpath.
    assert (Hb : bool_decide (path = "") = false)
      by by apply bool_decide_eq_false_2.
    unfold_methods. unfold_monad. simpl.
    repeat (progress (rewrite ?Hb, ?Hn, ?Hs; simpl)).
    exec; rewrite <- ?app_assoc; simpl;
      (eexists; split; [reflexivity|]);
      (split; [reflexivity|]); (split; [reflexivity|]);
      intros; simplify_eq; eauto.
Qed.
End Proofs.

(** ** The theorems at work on the stub engine *)

(** The faulty engine raises on its third step: the handle reports
    [(None, True)]. *)
Lemma NESSystem_step_engine_raises_witness :
  (NESSystem_step 129 (second_tick faulty)).1
  = Ok (None, true).
Proof.
  apply (NESSystem_step_engine_raises (H:=faulty) _
           (@Build_NESSystem faulty 0 "game.nes" (Some 2%nat))
           2%nat 3%nat 129 (Exception "engine fault")); vm_compute; reflexivity.
Defined.

(** A step of the healthy engine: the frame it shows, and [done = False]. *)
Lemma NESSystem_step_done_only_without_frame_witness :
  (NESSystem_step 129 (loaded healthy)).1 = Ok (Some 1%nat, false).
Proof.
  apply (proj1 (NESSystem_step_done_only_without_frame (H:=healthy)
                  (loaded healthy) 129)
           (@Build_NESSystem healthy 0 "game.nes" (Some 0%nat))
           0%nat 1%nat); vm_compute; reflexivity.
Defined.

(** Right and A (the key z) held together. *)
Lemma current_action_is_or_of_held_flags_witness :
  (∃ w : World (H:=healthy), reachable w ∧ keys_pressed w = {["Right"; "z"]})
  ∧ (∀ (w : World (H:=healthy)) l, reachable w → keys_pressed w = {["Right"; "z"]} →
       NoDup l → (∀ k, k ∈ l ↔ k ∈ ({["Right"; "z"]} : gset string)) →
       current_action w = or_flags l)
  ∧ (∀ w : World (H:=healthy), reachable w → keys_pressed w = ∅ → current_action w = 0).
Proof.
  apply (current_action_is_or_of_held_flags (H:=healthy) {["Right"; "z"]}).
  apply (bool_decide_unpack _). vm_compute. exact I.
Defined.

(** The key z goes down again while it is held. *)
Lemma on_key_press_held_is_noop_witness :
  keys_pressed (on_key_press "z" (holding_z healthy)).2
    = keys_pressed (holding_z healthy)
  ∧ current_action (on_key_press "z" (holding_z healthy)).2
    = current_action (holding_z healthy)
  ∧ on_key_press "z" (holding_z healthy) = (Ok tt, holding_z healthy).
Proof.
  apply (on_key_press_held_is_noop (H:=healthy)).
  - exists [ClickLoadRom "game.nes"; KeyPress "z"]. reflexivity.
  - exists 128. vm_compute. reflexivity.
  - apply (bool_decide_unpack _). vm_compute. exact I.
Defined.

(** A tick on a canvas that refuses every frame. *)
Lemma paint_failure_keeps_the_loop_running_witness :
  (schedule_frame (loaded unpaintable)).1 = Ok tt
  ∧ after_id (schedule_frame (loaded unpaintable)).2
    = Some (next_timer (loaded unpaintable))
  ∧ timers (schedule_frame (loaded unpaintable)).2
    = (timers (loaded unpaintable) ++ [next_timer (loaded unpaintable)])%list
  ∧ status (schedule_frame (loaded unpaintable)).2
    = status (loaded unpaintable).
Proof.
  destruct (paint_failure_keeps_the_loop_running (H:=unpaintable)
              (loaded unpaintable)
              (@Build_NESSystem unpaintable 0 "game.nes" (Some 0%nat))
              0%nat 1%nat 1%nat)
    as (H1 & H2 & H3 & H4 & _).
  - vm_compute. reflexivity.
  - vm_compute. reflexivity.
  - vm_compute. reflexivity.
  - vm_compute. reflexivity.
  - exact (conj H1 (conj H2 (conj H3 H4))).
Defined.

(** Reset pressed while the loop runs. *)
Lemma reset_rom_returns_to_paused_witness :
  timers (handle (running healthy) ClickReset) = []
  ∧ after_id (handle (running healthy) ClickReset) = None
  ∧ start_btn_text (handle (running healthy) ClickReset) = "Start"
  ∧ status (handle (running healthy) ClickReset) = "Reset".
Proof.
  destruct (reset_rom_returns_to_paused (H:=healthy) (running healthy)
              (@Build_NESSystem healthy 0 "game.nes" (Some 1%nat))
              1%nat 0%nat) as (H1 & H2 & H3 & H4 & _).
  - exists [ClickLoadRom "game.nes"; ClickStart]. reflexivity.
  - vm_compute. reflexivity.
  - vm_compute. reflexivity.
  - vm_compute. reflexivity.
  - vm_compute. reflexivity.
  - exact (conj H1 (conj H2 (conj H3 H4))).
Defined.

(** The engine shows no frame after its second step. *)
Lemma null_frame_stops_the_loop_and_start_retries_witness :
  status (handle (running blanking) TimerFire) = "Frame error"
  ∧ after_id (handle (running blanking) TimerFire) = None
  ∧ timers (handle (running blanking) TimerFire) = [].
Proof.
  destruct (null_frame_stops_the_loop_and_start_retries (H:=blanking)
              (running blanking)
              (@Build_NESSystem blanking 0 "game.nes" (Some 1%nat))
              1%nat 2%nat 0%nat []) as (H1 & H2 & H3 & _).
  - exists [ClickLoadRom "game.nes"; ClickStart]. reflexivity.
  - vm_compute. reflexivity.
  - vm_compute. reflexivity.
  - vm_compute. reflexivity.
  - vm_compute. reflexivity.
  - vm_compute. reflexivity.
  - vm_compute. reflexivity.
  - exact (conj H1 (conj H2 H3)).
Defined.

(** A second ROM is loaded over the first. *)
Lemma load_rom_closes_the_open_handle_first_witness :
  ∃ rest,
    trace (load_rom "second.nes" (loaded healthy)).2 =
      (trace (loaded healthy)
       ++ EnvClose (hid (@Build_NESSystem healthy 0 "game.nes" (Some 0%nat)))
          :: rest)%list
    ∧ count (is_close_of (hid (@Build_NESSystem healthy 0 "game.nes" (Some 0%nat)))) rest = 0%nat.
Proof.
  destruct (load_rom_closes_the_open_handle_first (H:=healthy) (loaded healthy))
    as [_ Hload].
  - exists [ClickLoadRom "game.nes"]. reflexivity.
  - destruct (Hload (@Build_NESSystem healthy 0 "game.nes" (Some 0%nat))
                0%nat "second.nes")
      as (rest & Ht & Hc & _).
    + vm_compute. reflexivity.
    + vm_compute. reflexivity.
    + discriminate.
    + exists rest. exact (conj Ht Hc).
Defined.


(** C1: the engine raises on the third [step] call of a run.  The run
    makes three [step] calls and two paints and then halts with nothing
    scheduled, as the claim says; but the status line reads
    "Frame error": [schedule_frame] returns on the missing frame before
    it looks at [done], so its "Game Over" branch is never reached. *)
Example third_step_raises_status_is_frame_error :
  count is_step (trace (third_tick faulty)) = 3%nat
  ∧ count is_paint (trace (third_tick faulty))
    = (count is_paint (trace (loaded faulty)) + 2)%nat
  ∧ timers (third_tick faulty) = []
  ∧ after_id (third_tick faulty) = None
  ∧ status (third_tick faulty) = "Frame error".
Proof. vm_compute. repeat split. Qed.

(** C4: the third tick of the same run is a tick whose [step] reports
    [done = True].  The shell is paused afterwards (no callback
    pending, [after_id] cleared), but the control still reads "Pause":
    the relabelling sits in the branch that the early return skips. *)
Example done_tick_leaves_the_control_labelled_pause :
  (NESSystem_step (current_action (second_tick faulty)) (second_tick faulty)).1
    = Ok (None, true)
  ∧ third_tick faulty = handle (second_tick faulty) TimerFire
  ∧ after_id (third_tick faulty) = None
  ∧ timers (third_tick faulty) = []
  ∧ start_btn_text (third_tick faulty) = "Pause".
Proof. vm_compute. repeat split. Qed.

(** C5: the engine shows no frame after its second step, without
    raising: the tick's [step] returns [(None, False)].  The loop stops,
    "Frame error" is shown, the handle stays open, and the next press of
    the control steps the engine again, as the claim says.  But the
    control does not revert: it still reads "Pause" while nothing runs.
    The branch of [schedule_frame] that returns early clears [after_id]
    and leaves the label alone, where the Pause path, the Reset path and
    the [done] branch all write "Start". *)
Example null_frame_tick_leaves_the_control_labelled_pause :
  (NESSystem_step (current_action (running blanking)) (running blanking)).1
    = Ok (None, false)
  ∧ status (handle (running blanking) TimerFire) = "Frame error"
  ∧ after_id (handle (running blanking) TimerFire) = None
  ∧ timers (handle (running blanking) TimerFire) = []
  ∧ alive (trace (handle (running blanking) TimerFire)) = [0%nat]
  ∧ start_btn_state (handle (running blanking) TimerFire) = NORMAL
  ∧ start_btn_text (handle (running blanking) TimerFire) = "Pause"
  ∧ count is_step
      (trace (handle (handle (running blanking) TimerFire) ClickStart))
    = 3%nat.
Proof. vm_compute. repeat split. Qed.


(** * Further properties of the code *)

Section Extras.
Context `{Platform}.

(** ** More on the key table *)

Lemma keymap_entry (k : string) (z : Z) :
  keymap !! k = Some z →
  (k, z) ∈ [("Right", 1); ("Left", 2); ("Down", 4); ("Up", 8);
            ("Return", 16); ("Shift_L", 32); ("x", 64); ("z", 128)].
Proof. unfold keymap. apply elem_of_list_to_map_2. Qed.

Ltac entry_cases Hk :=
  apply keymap_entry in Hk;
  repeat (apply elem_of_cons in Hk as [Hk|Hk]; [injection Hk as -> ->|]);
  [..|by apply elem_of_nil in Hk].

Lemma keymap_flag_byte (k : string) (z : Z) :
  keymap !! k = Some z → 0 < z < 256.
Proof. intros Hk. entry_cases Hk; lia. Qed.

Lemma keymap_flags_disjoint (k1 k2 : string) (z1 z2 : Z) :
  keymap !! k1 = Some z1 → keymap !! k2 = Some z2 →
  Z.land z1 z2 = if decide (k1 = k2) then z2 else 0.
Proof.
  intros H1 H2. entry_cases H1; entry_cases H2; by vm_compute.
Qed.

Lemma lor_byte (a b : Z) :
  0 ≤ a < 256 → 0 ≤ b < 256 → 0 ≤ Z.lor a b < 256.
Proof.
  intros Ha Hb. split; [apply Z.lor_nonneg; lia|].
  destruct (Z.eq_dec (Z.lor a b) 0) as [->|Hne]; [lia|].
  assert (0 ≤ Z.lor a b)%Z by (apply Z.lor_nonneg; lia).
  change 256 with (2 ^ 8). apply Z.log2_lt_pow2; [lia|].
  rewrite Z.log2_lor by lia.
  assert (∀ c, (0 ≤ c < 256)%Z → (Z.log2 c < 8)%Z) as Hlog.
  { intros c Hc. destruct (Z.eq_dec c 0) as [->|]; [simpl; lia|].
    apply Z.log2_lt_pow2; [lia|]. change (2 ^ 8) with 256; lia. }
  apply Z.max_lub_lt; apply Hlog; lia.
Qed.

Lemma keymap_get_byte (k : string) : 0 ≤ keymap_get k 0 < 256.
Proof.
  unfold keymap_get. destruct (keymap !! k) as [z|] eqn:Hk; simpl; [|lia].
  apply keymap_flag_byte in Hk. lia.
Qed.

Lemma bitmask_byte (ks : gset string) : 0 ≤ bitmask ks < 256.
Proof.
  unfold bitmask.
  apply (set_fold_ind_L (λ acc _, 0 ≤ acc < 256)); [lia|].
  intros x X r _ Hr. apply lor_byte; [done | apply keymap_get_byte].
Qed.

Lemma bitmask_has_flag (ks : gset string) :
  ks ⊆ dom keymap →
  ∀ k z, keymap !! k = Some z → (Z.land (bitmask ks) z = z ↔ k ∈ ks).
Proof.
  unfold bitmask.
  apply (set_fold_ind_L (λ acc X, X ⊆ dom keymap →
    ∀ k z, keymap !! k = Some z → (Z.land acc z = z ↔ k ∈ X))).
  - intros _ k z Hk. apply keymap_flag_byte in Hk.
    rewrite Z.land_0_l. split; [lia | by intros ?%not_elem_of_empty].
  - intros x X r Hx IH HX k z Hk.
    assert (is_Some (keymap !! x)) as [zx Hzx].
    { apply elem_of_dom, HX. set_solver. }
    assert (X ⊆ dom keymap) as HX' by set_solver.
    unfold keymap_get. rewrite Hzx. simpl.
    rewrite Z.land_lor_distr_l, (keymap_flags_disjoint x k zx z Hzx Hk).
    destruct (decide (x = k)) as [->|Hne].
    + split; [set_solver|]. intros _.
      apply Z.bits_inj'. intros i _.
      rewrite Z.lor_spec, Z.land_spec. by destruct (Z.testbit r i), (Z.testbit z i).
    + rewrite Z.lor_0_r, (IH HX' k z Hk). set_solver.
Qed.

(** X1: a key event that the handlers' guards reject changes nothing.
    [on_key_release] of a key that is not in the table or not held, and
    [on_key_press] of a key that is not in the table, return the world
    they were given. *)
Theorem ignored_key_events_change_nothing (w : World) (k : string) :
  keymap !! k = None ∨ k ∉ keys_pressed w →
  on_key_release k w = (Ok tt, w)
  ∧ (keymap !! k = None → on_key_press k w = (Ok tt, w)).
Proof.
  intros Hk. unfold on_key_release, on_key_press. unfold_monad. split.
  - destruct (keymap !! k) as [z|]; [|done].
    destruct Hk as [?|Hk]; [done|]. by rewrite bool_decide_eq_false_2.
  - by intros ->.
Qed.

(** X2: pressing a mapped key that is not held and releasing it again
    brings the application back to the state it was in: held set,
    action and everything else.  In between, the key is held. *)
Theorem key_press_then_release_restores_the_state (w : World) (k : string) :
  reachable w → is_Some (keymap !! k) → k ∉ keys_pressed w →
  handle (handle w (KeyPress k)) (KeyRelease k) = w
  ∧ (destroyed w = false → k ∈ keys_pressed (handle w (KeyPress k))).
Proof.
  intros Hw [z Hz] Hk.
  destruct (reachable_inv_keys w Hw) as [_ Hact].
  assert (Hdiff : ({[k]} ∪ keys_pressed w) ∖ {[k]} = keys_pressed w)
    by set_solver.
  unfold handle, dispatch, on_key_press, on_key_release, update_action.
  unfold_monad.
  destruct (destroyed w) eqn:Hd; [by rewrite Hd|].
  rewrite Hz. simpl. rewrite ?Hd, ?Hz. simpl.
  rewrite bool_decide_eq_true_2 by set_solver. simpl.
  split; [|set_solver].
  rewrite Hdiff. fold (bitmask (keys_pressed w)). rewrite <- Hact.
  by destruct w.
Qed.

(** X3: in every reachable world the bit of a mapped key is set in
    [current_action] exactly when that key is held: the eight flags do
    not overlap, so no key can be read off another key's bit. *)
Theorem button_bit_is_set_iff_its_key_is_held (w : World) (k : string) (z : Z) :
  reachable w → keymap !! k = Some z →
  (Z.land (current_action w) z = z ↔ k ∈ keys_pressed w).
Proof.
  intros Hw Hk. destruct (reachable_inv_keys w Hw) as [Hsub ->].
  by apply bitmask_has_flag.
Qed.

(** X4: in every reachable world only keys of the table are held, and
    [current_action] fits the eight controller bits. *)
Theorem held_keys_are_mapped_and_action_is_a_byte (w : World) :
  reachable w →
  keys_pressed w ⊆ dom keymap ∧ 0 ≤ current_action w < 256.
Proof.
  intros Hw. destruct (reachable_inv_keys w Hw) as [Hsub ->].
  split; [done | apply bitmask_byte].
Qed.


(** ** More on the frame loop *)

(** X5: in every reachable world at most one tick of the frame loop
    is pending, and it is the one [after_id] names. *)
Theorem at_most_one_tick_is_pending (w : World) :
  reachable w →
  (length (timers w) ≤ 1)%nat ∧ ∀ id, id ∈ timers w → after_id w = Some id.
Proof.
  intros Hw. destruct (reachable_inv_timer w Hw) as [-> | (id & -> & Ha)].
  - split; [simpl; lia | by intros id ?%elem_of_nil].
  - split; [simpl; lia | by intros id' ->%list_elem_of_singleton].
Qed.

(** X6: Pause.  Pressing the control while a tick is pending cancels
    that tick, clears [after_id], labels the control "Start" and shows
    "Paused"; from then on the engine is not stepped, whatever happens,
    until the control is pressed again. *)
Theorem pause_cancels_the_tick_until_start (w : World) (h : NESSystem)
    (id : nat) :
  reachable w → destroyed w = false →
  nes w = Some h → after_id w = Some id →
  after_id (handle w ClickStart) = None
  ∧ timers (handle w ClickStart) = []
  ∧ start_btn_text (handle w ClickStart) = "Start"
  ∧ status (handle w ClickStart) = "Paused"
  ∧ trace (handle w ClickStart) = (trace w ++ [AfterCancel id])%list
  ∧ ∀ evs, Forall (λ ev, ev ≠ ClickStart) evs →
      count is_step (trace (run evs (handle w ClickStart)))
      = count is_step (trace w).
Proof.
  intros Hw Hd Hn Ha.
  destruct (reachable_inv_loaded w Hw h Hn) as (Hbtn & _ & _).
  assert (Ht : filter (λ t, t ≠ id) (timers w) = []).
  { destruct (reachable_inv_timer w Hw) as [-> | (id' & -> & Ha')];
      [done|]. assert (id' = id) as -> by congruence. apply filter_ne_self. }
  assert (Hev : handle w ClickStart =
    set_status "Paused" (set_start_btn_text "Start" (set_after_id None
      (set_trace (trace w ++ [AfterCancel id]) (set_timers [] w))))).
  { unfold handle, dispatch, toggle_run, tk_after_cancel. unfold_monad.
    rewrite Hd, Hbtn, Hn, Ha. simpl. by rewrite Ht. }
  rewrite Hev. repeat split; try done.
  intros evs Hevs.
  destruct (quiet_run evs (handle w ClickStart)) as [_ Hc];
    [by rewrite Hev | done |].
  rewrite <- Hev, Hc, Hev. simpl. rewrite count_snoc. simpl. lia.
Qed.

Lemma steady_tick (w : World) (h : NESSystem) (id : nat) :
  steady → destroyed w = false → timers w = [id] →
  nes w = Some h → is_Some (env h) →
  destroyed (handle w TimerFire) = false
  ∧ timers (handle w TimerFire) = [next_timer w]
  ∧ (∃ h', nes (handle w TimerFire) = Some h' ∧ is_Some (env h'))
  ∧ count is_step (trace (handle w TimerFire)) = S (count is_step (trace w))
  ∧ count is_paint (trace (handle w TimerFire)) = S (count is_paint (trace w))
  ∧ status (handle w TimerFire) = status w
  ∧ start_btn_text (handle w TimerFire) = start_btn_text w.
Proof.
  intros (Hstep & Hscreen & Hpaint) Hd Ht Hn [s Hs].
  destruct (env_step s (current_action w)) as [s' r] eqn:He.
  pose proof (Hstep s (current_action w)) as Hr. rewrite He in Hr.
  simpl in Hr. subst r.
  destruct (Hscreen s') as [f Hf]. destruct (Hpaint f) as (img & Hp & Hc).
  unfold_methods. unfold_monad. simpl.
  repeat (progress (rewrite ?Hd, ?Ht, ?Hn, ?Hs, ?He, ?Hf, ?Hp, ?Hc; simpl)).
  rewrite !count_snoc. simpl. repeat split; eauto; lia.
Qed.

(** X7: with an engine that steps and shows a frame every time, and a
    canvas that takes it, [n] ticks of a running loop make [n] calls of
    [env.step] and [n] paints, leave one tick pending, and leave the
    status line and the control's label alone. *)
Theorem steady_loop_steps_and_paints_once_per_tick (n : nat) (w : World)
    (h : NESSystem) (id : nat) :
  steady → destroyed w = false → timers w = [id] →
  nes w = Some h → is_Some (env h) →
  count is_step (trace (run (ticks n) w)) = (count is_step (trace w) + n)%nat
  ∧ count is_paint (trace (run (ticks n) w))
    = (count is_paint (trace w) + n)%nat
  ∧ length (timers (run (ticks n) w)) = 1%nat
  ∧ status (run (ticks n) w) = status w
  ∧ start_btn_text (run (ticks n) w) = start_btn_text w.
Proof.
  intros Hst. revert w h id.
  induction n as [|n IH]; intros w h id Hd Ht Hn Hs.
  - simpl. rewrite Ht. repeat split; simpl; lia.
  - destruct (steady_tick w h id Hst Hd Ht Hn Hs)
      as (Hd' & Ht' & (h' & Hn' & Hs') & Hc1 & Hc2 & Hst' & Htx').
    change (ticks (S n)) with (TimerFire :: ticks n). rewrite run_cons.
    destruct (IH _ h' _ Hd' Ht' Hn' Hs') as (I1 & I2 & I3 & I4 & I5).
    rewrite I1, I2, I3, I4, I5, Hc1, Hc2, Hst', Htx'.
    repeat split; lia.
Qed.


(** ** More on the handle *)

(** X8: [NESSystem.close] closes the engine once.  On an open handle
    it calls [env.close], prints, and drops the engine; a second call on
    the same handle does nothing at all. *)
Theorem NESSystem_close_is_idempotent (w : World) (h : NESSystem)
    (s s' : session) :
  nes w = Some h → env h = Some s → env_close s = (s', None) →
  (NESSystem_close w).1 = Ok tt
  ∧ nes (NESSystem_close w).2 = Some (set_env None h)
  ∧ trace (NESSystem_close w).2 =
      (trace w ++ [EnvClose (hid h);
                   Print "[NESSystem] Closed NES environment"])%list
  ∧ NESSystem_close (NESSystem_close w).2 = (Ok tt, (NESSystem_close w).2).
Proof.
  intros Hn Hs Hc.
  unfold NESSystem_close, self_env, self_env_call. unfold_monad. simpl.
  repeat (progress (rewrite ?Hn, ?Hs, ?Hc; simpl)).
  repeat split; try done. by rewrite <- app_assoc.
Qed.

(** X9: a handle whose engine has been dropped.  [step] does not
    raise: the attribute error of [None.step] is caught, printed, and
    reported as [(None, True)]; [reset] and [close] do nothing. *)
Theorem closed_handle_is_never_passed_to_the_engine (w : World)
    (h : NESSystem) (action : Z) :
  nes w = Some h → env h = None →
  NESSystem_step action w =
    (Ok (None, true),
     set_trace (trace w ++
       [Print "[NESSystem] step() failed: 'NoneType' object has no attribute 'step'"]) w)
  ∧ NESSystem_reset w = (Ok tt, w)
  ∧ NESSystem_close w = (Ok tt, w).
Proof.
  intros Hn Hs.
  unfold NESSystem_step, NESSystem_reset, NESSystem_close, self_env,
    self_env_call. unfold_monad. simpl.
  by repeat (progress (rewrite ?Hn, ?Hs; simpl)).
Qed.

(** X10: [NESSystem.__init__] gives a handle only if the engine both
    opened and reset the ROM; the handle then holds the path and the
    engine.  If either call raises, the error is printed and raised
    again, and no handle is counted as opened. *)
Theorem NESSystem_init_opens_or_reraises (path : string) (w : World) :
  match (NESSystem_init path w).1 with
  | Ok n =>
      hid n = next_hid w ∧ rom_path n = path
      ∧ (∃ s s', NESEnv path = Ok s ∧ env_reset s = (s', None)
                 ∧ env n = Some s')
      ∧ count is_opened (trace (NESSystem_init path w).2)
        = S (count is_opened (trace w))
  | Raise e =>
      (NESEnv path = Raise e
       ∨ ∃ s s', NESEnv path = Ok s ∧ env_reset s = (s', Some e))
      ∧ count is_opened (trace (NESSystem_init path w).2)
        = count is_opened (trace w)
      ∧ last (trace (NESSystem_init path w).2)
        = Some (Print ("[NESSystem] Error initializing nes-py: " ++ str e))
  end
  ∧ next_hid (NESSystem_init path w).2 = S (next_hid w)
  ∧ nes (NESSystem_init path w).2 = nes w.
Proof.
  unfold NESSystem_init. unfold_monad. simpl.
  destruct (NESEnv path) as [s|e] eqn:Hn; simpl;
    [destruct (env_reset s) as [s' [e|]] eqn:Hr; simpl|];
    rewrite ?count_snoc, ?last_snoc; simpl;
    repeat split; eauto 8; lia.
Qed.


(** ** More on loading and leaving *)

(** X11: a load that the engine refuses.  [load_rom] does not raise:
    it shows the error box, sets the status to "Load failed" and holds
    no handle, the earlier one having been closed.  The two buttons
    keep the state they had, but pressing either does nothing. *)
Theorem failed_load_leaves_no_handle (w : World) (path : string) (e : exn) :
  path ≠ "" →
  (∀ h s, nes w = Some h → env h = Some s → (env_close s).2 = None) →
  (NESEnv path = Raise e
   ∨ ∃ s s', NESEnv path = Ok s ∧ env_reset s = (s', Some e)) →
  (load_rom path w).1 = Ok tt
  ∧ nes (load_rom path w).2 = None
  ∧ status (load_rom path w).2 = "Load failed"
  ∧ last (trace (load_rom path w).2)
    = Some (ShowError "Error" ("Failed to load ROM: " ++ str e))
  ∧ start_btn_state (load_rom path w).2 = start_btn_state w
  ∧ reset_btn_state (load_rom path w).2 = reset_btn_state w
  ∧ handle (load_rom path w).2 ClickStart = (load_rom path w).2
  ∧ handle (load_rom path w).2 ClickReset = (load_rom path w).2.
Proof.
  intros Hpath Hclose Hfail.
  assert (Hb : bool_decide (path = "") = false)
    by by apply bool_decide_eq_false_2.
  assert (Hret : ∀ w' : World, nes w' = None →
            handle w' ClickStart = w' ∧ handle w' ClickReset = w').
  { intros w' Hn'. unfold handle, dispatch, toggle_run, reset_rom.
    unfold_monad. simpl.
    destruct (destroyed w'); [done|].
    destruct (start_btn_state w'), (reset_btn_state w'); by rewrite ?Hn'. }
  assert (Hmain : (load_rom path w).1 = Ok tt
    ∧ nes (load_rom path w).2 = None
    ∧ status (load_rom path w).2 = "Load failed"
    ∧ last (trace (load_rom path w).2)
      = Some (ShowError "Error" ("Failed to load ROM: " ++ str e))
    ∧ start_btn_state (load_rom path w).2 = start_btn_state w
    ∧ reset_btn_state (load_rom path w).2 = reset_btn_state w).
  { unfold load_rom, on_nes, NESSystem_close, NESSystem_init, self_env,
      self_env_call. unfold_monad. rewrite Hb. simpl.
    destruct (nes w) as [h|] eqn:Hn;
      [destruct (env h) as [s0|] eqn:Hs;
       [specialize (Hclose h s0 eq_refl Hs);
        destruct (env_close s0) as [s1 r] eqn:Hc; simpl in Hclose; subst r|]|].
    all: destruct Hfail as [Hf | (s & s' & Hf & Hr)];
      repeat (progress (rewrite ?Hn, ?Hs, ?Hc, ?Hf, ?Hr; simpl));
      rewrite ?last_snoc; done. }
  destruct Hmain as (H1 & H2 & H3 & H4 & H5 & H6).
  destruct (Hret _ H2) as [H7 H8]. done.
Qed.

(** X12: a load that the engine accepts installs a fresh handle on
    the chosen path, shows "Loaded: " and the file's base name, and
    enables both buttons.  It neither cancels a pending tick nor
    touches the control's label. *)
Theorem successful_load_installs_the_handle (w : World) (path : string)
    (s s' : session) :
  path ≠ "" →
  (∀ h s0, nes w = Some h → env h = Some s0 → (env_close s0).2 = None) →
  NESEnv path = Ok s → env_reset s = (s', None) →
  (load_rom path w).1 = Ok tt
  ∧ nes (load_rom path w).2
    = Some {| hid := next_hid w; rom_path := path; env := Some s' |}
  ∧ status (load_rom path w).2 = "Loaded: " ++ basename path
  ∧ start_btn_state (load_rom path w).2 = NORMAL
  ∧ reset_btn_state (load_rom path w).2 = NORMAL
  ∧ after_id (load_rom path w).2 = after_id w
  ∧ timers (load_rom path w).2 = timers w
  ∧ start_btn_text (load_rom path w).2 = start_btn_text w.
Proof.
  intros Hpath Hclose Hnew Hr.
  assert (Hb : bool_decide (path = "") = false)
    by by apply bool_decide_eq_false_2.
  unfold load_rom, on_nes, NESSystem_close, NESSystem_init, self_env,
    self_env_call, render_frame. unfold_monad. rewrite Hb. simpl.
  destruct (nes w) as [h|] eqn:Hn;
    [destruct (env h) as [s0|] eqn:Hs;
     [specialize (Hclose h s0 eq_refl Hs);
      destruct (env_close s0) as [s1 r] eqn:Hc; simpl in Hclose; subst r|]|].
  all: destruct (env_screen s') as [f|] eqn:Hf;
    [destruct (PhotoImage f) as [img|e] eqn:Hp;
     [destruct (create_image img) as [e|] eqn:Hi|]|].
  all: by repeat (progress
    (rewrite ?Hn, ?Hs, ?Hc, ?Hnew, ?Hr, ?Hf, ?Hp, ?Hi; simpl)).
Qed.

(** X13: closing the window of a reachable application cancels the
    pending tick, closes the open handle, and destroys the window last;
    no handle is left open, and no later event changes anything. *)
Theorem window_close_tears_everything_down (w : World) :
  reachable w → destroyed w = false →
  (∀ h s, nes w = Some h → env h = Some s → (env_close s).2 = None) →
  destroyed (handle w WindowClose) = true
  ∧ timers (handle w WindowClose) = []
  ∧ alive (trace (handle w WindowClose)) = []
  ∧ last (trace (handle w WindowClose)) = Some Destroy
  ∧ ∀ evs, run evs (handle w WindowClose) = handle w WindowClose.
Proof.
  intros Hw Hd Hclose.
  pose proof (reachable_inv_timer w Hw) as Htm.
  destruct (reachable_inv_alive w Hw) as [_ Hal].
  assert (Hdead : ∀ (w' : World) evs, destroyed w' = true → run evs w' = w').
  { intros w' evs Hd'. induction evs as [|ev evs IH]; [done|].
    rewrite run_cons. unfold handle at 1. by rewrite Hd'. }
  assert (Hmain : destroyed (handle w WindowClose) = true
    ∧ timers (handle w WindowClose) = []
    ∧ alive (trace (handle w WindowClose)) = []
    ∧ last (trace (handle w WindowClose)) = Some Destroy).
  { unfold handle, dispatch, on_close, on_nes, NESSystem_close, self_env,
      self_env_call, tk_after_cancel, tk_destroy. unfold_monad.
    rewrite Hd. simpl.
    destruct (after_id w) as [id|] eqn:Ha;
      (destruct (nes w) as [h|] eqn:Hn;
       [destruct (env h) as [s0|] eqn:Hs;
        [specialize (Hclose h s0 eq_refl Hs);
         destruct (env_close s0) as [s1 r] eqn:Hc; simpl in Hclose; subst r|]|]).
    all: repeat (progress (rewrite ?Ha, ?Hn, ?Hs, ?Hc; simpl)).
    all: rewrite ?last_snoc, ?alive_snoc; simpl.
    all: destruct Htm as [Ht | (id' & Ht & Ha')]; rewrite ?Ht;
      simplify_eq/=; rewrite ?filter_ne_self, ?filter_nil.
    all: destruct Hal as [Hal | (m & Hm & [? He] & Hal)]; simplify_eq/=;
      rewrite ?Hal; simpl; rewrite ?filter_ne_self, ?filter_nil;
      try done; congruence. }
  destruct Hmain as (H1 & H2 & H3 & H4). repeat split; try done.
  intros evs. by apply Hdead.
Qed.


(** ** When the engine refuses *)

(** X14: if [env.close] raises, the error escapes both [load_rom] and
    [on_close]: the new ROM is not opened and the status is not
    touched, the window is not destroyed, and the application still
    holds the old handle with its engine. *)
Theorem engine_close_failure_escapes (w : World) (h : NESSystem)
    (s s' : session) (e : exn) (path : string) :
  nes w = Some h → env h = Some s → env_close s = (s', Some e) →
  path ≠ "" →
  (load_rom path w).1 = Raise e
  ∧ nes (load_rom path w).2 = Some (set_env (Some s') h)
  ∧ trace (load_rom path w).2 = (trace w ++ [EnvClose (hid h)])%list
  ∧ status (load_rom path w).2 = status w
  ∧ (on_close w).1 = Raise e
  ∧ destroyed (on_close w).2 = destroyed w
  ∧ nes (on_close w).2 = Some (set_env (Some s') h).
Proof.
  intros Hn Hs Hc Hpath.
  assert (Hb : bool_decide (path = "") = false)
    by by apply bool_decide_eq_false_2.
  unfold load_rom, on_close, on_nes, NESSystem_close, self_env,
    self_env_call, tk_after_cancel. unfold_monad. rewrite Hb. simpl.
  destruct (after_id w) as [id|] eqn:Ha.
  all: by repeat (progress (rewrite ?Hn, ?Hs, ?Hc; simpl)).
Qed.

(** X15: if [env.reset] raises, the error escapes [reset_rom] after
    the pending tick has been cancelled: [after_id] is cleared, but
    nothing is drawn and neither the control's label nor the status
    line is updated. *)
Theorem engine_reset_failure_escapes (w : World) (h : NESSystem)
    (s s' : session) (e : exn) :
  nes w = Some h → env h = Some s → env_reset s = (s', Some e) →
  (reset_rom w).1 = Raise e
  ∧ after_id (reset_rom w).2 = None
  ∧ status (reset_rom w).2 = status w
  ∧ start_btn_text (reset_rom w).2 = start_btn_text w
  ∧ count is_paint (trace (reset_rom w).2) = count is_paint (trace w)
  ∧ nes (reset_rom w).2 = Some (set_env (Some s') h).
Proof.
  intros Hn Hs Hr.
  unfold reset_rom, on_nes, NESSystem_reset, self_env, self_env_call,
    tk_after_cancel. unfold_monad. simpl.
  destruct (after_id w) as [id|] eqn:Ha.
  all: repeat (progress (rewrite ?Hn, ?Hs, ?Hr, ?Ha; simpl)).
  all: rewrite ?count_snoc; simpl; repeat split; try done; lia.
Qed.

Lemma byte_steps_step (w : World) (ev : event) :
  reachable w →
  Forall byte_step (trace w) → Forall byte_step (trace (handle w ev)).
Proof.
  intros Hw Ht.
  destruct (reachable_inv_keys w Hw) as [_ Hact].
  pose proof (bitmask_byte (keys_pressed w)) as Hbyte.
  rewrite <- Hact in Hbyte. clear Hact Hw.
  destruct ev.
  all: exec; rewrite ?Forall_app, ?Forall_singleton; simpl;
    repeat split; first [done | lia].
Qed.

(** X16: every action the application has ever passed to [env.step]
    fits the eight controller bits. *)
Theorem engine_only_sees_byte_actions (w : World) (h : nat) (a : Z) :
  reachable w → EnvStep h a ∈ trace w → 0 ≤ a < 256.
Proof.
  intros Hw Hin.
  assert (Hall : Forall byte_step (trace w)).
  { clear Hin. revert w Hw. apply reachable_ind; [by constructor|].
    intros w ev Hw IH. by apply byte_steps_step. }
  rewrite Forall_forall in Hall. exact (Hall _ Hin).
Qed.


Lemma status_step (w : World) (ev : event) :
  status w ≠ "Game Over" → status (handle w ev) ≠ "Game Over".
Proof.
  intros Hst. destruct ev.
  all: exec; simpl; first [done | discriminate].
Qed.

(** X17: the status line never reads "Game Over".  [schedule_frame]
    has a branch that writes it, but the branch needs a frame together
    with [done = True], which [NESSystem.step] never returns. *)
Theorem status_never_reads_game_over (w : World) :
  reachable w → status w ≠ "Game Over".
Proof.
  revert w. apply reachable_ind; [discriminate|].
  intros w ev _ IH. by apply status_step.
Qed.

(** X18: Start.  In a reachable world with a ROM loaded, the window
    open and [after_id] cleared, pressing the control labels it "Pause"
    and steps the engine at once, once, with the current action,
    whatever the engine does.  If the step returns and the engine shows
    a frame, the status reads "Running" and the next tick is scheduled,
    the only one pending; if the step raises or no frame is shown, the
    status reads "Frame error" and nothing is pending. *)
Theorem start_runs_the_first_tick_at_once (w : World) (h : NESSystem) :
  reachable w → destroyed w = false →
  nes w = Some h → after_id w = None →
  start_btn_text (handle w ClickStart) = "Pause"
  ∧ count is_step (trace (handle w ClickStart)) = S (count is_step (trace w))
  ∧ (∃ rest, trace (handle w ClickStart)
             = (trace w ++ EnvStep (hid h) (current_action w) :: rest)%list)
  ∧ ∃ s s' r,
      env h = Some s ∧ env_step s (current_action w) = (s', r)
      ∧ nes (handle w ClickStart) = Some (set_env (Some s') h)
      ∧ match r, env_screen s' with
        | None, Some _ =>
            status (handle w ClickStart) = "Running"
            ∧ after_id (handle w ClickStart) = Some (next_timer w)
            ∧ timers (handle w ClickStart) = [next_timer w]
        | _, _ =>
            status (handle w ClickStart) = "Frame error"
            ∧ after_id (handle w ClickStart) = None
            ∧ timers (handle w ClickStart) = []
        end.
Proof.
  intros Hw Hd Hn Ha.
  destruct (reachable_inv_loaded w Hw h Hn) as (Hbtn & _ & Hopen).
  destruct (Hopen Hd) as [s Hs].
  assert (Ht : timers w = []).
  { destruct (reachable_inv_timer w Hw) as [Ht | (id & _ & Ha')];
      [done | congruence]. }
  destruct (env_step s (current_action w)) as [s' r] eqn:He.
  unfold handle, dispatch, toggle_run, schedule_frame, on_nes,
    NESSystem_step, self_env_call, self_env, render_frame, tk_after.
  unfold_monad.
  destruct r as [e|];
    (destruct (env_screen s') as [f|] eqn:Hf;
     [destruct (PhotoImage f) as [img|e'] eqn:Hp;
      [destruct (create_image img) as [e'|] eqn:Hc|]|]).
  all: repeat (progress
         (rewrite ?Hd, ?Hbtn, ?Hn, ?Ha, ?Hs, ?He, ?Hf, ?Hp, ?Hc, ?Ht; simpl)).
  all: rewrite ?count_snoc; simpl; rewrite <- ?app_assoc; simpl.
  all: split; [done|]; split; [lia|]; split; [by eexists|].
  all: exists s, s'; eexists; split; [done|]; split; [done|].
  all: rewrite ?Hf; by repeat split.
Qed.

(** X19: [render_frame] never raises, and it touches nothing but the
    image and the canvas.  The image built from the frame replaces
    [frame_image] before the canvas is asked, so it stays even when the
    canvas refuses it; when the conversion fails the old image stays. *)
Theorem render_frame_never_raises (f : frame) (w : World) :
  (render_frame f w).1 = Ok tt
  ∧ match PhotoImage f with
    | Ok img =>
        frame_image (render_frame f w).2 = Some img
        ∧ trace (render_frame f w).2 =
            (trace w ++ [match create_image img with
                         | Some e => Print ("[App] Render frame failed: " ++ str e)
                         | None => CreateImage f
                         end])%list
    | Raise e =>
        frame_image (render_frame f w).2 = frame_image w
        ∧ trace (render_frame f w).2 =
            (trace w ++ [Print ("[App] Render frame failed: " ++ str e)])%list
    end
  ∧ after_id (render_frame f w).2 = after_id w
  ∧ status (render_frame f w).2 = status w
  ∧ nes (render_frame f w).2 = nes w.
Proof.
  unfold render_frame. unfold_monad. simpl.
  destruct (PhotoImage f) as [img|e]; simpl;
    [destruct (create_image img) as [e|]; simpl|]; done.
Qed.

End Extras.

(** ** The further theorems at work on the stub engine *)

(** The key q is not in the table. *)
Lemma ignored_key_events_change_nothing_witness :
  on_key_release "q" (loaded healthy) = (Ok tt, loaded healthy)
  ∧ (keymap !! "q" = None →
     on_key_press "q" (loaded healthy) = (Ok tt, loaded healthy)).
Proof.
  apply (ignored_key_events_change_nothing (H:=healthy) (loaded healthy) "q").
  left. vm_compute. reflexivity.
Defined.

(** The key z goes down and up again. *)
Lemma key_press_then_release_restores_the_state_witness :
  handle (handle (loaded healthy) (KeyPress "z")) (KeyRelease "z")
  = loaded healthy.
Proof.
  apply (key_press_then_release_restores_the_state (H:=healthy)
           (loaded healthy) "z").
  - exists [ClickLoadRom "game.nes"]. reflexivity.
  - exists 128. vm_compute. reflexivity.
  - apply (bool_decide_unpack _). vm_compute. exact I.
Defined.

(** The bit of A (the key z) while z is held. *)
Lemma button_bit_is_set_iff_its_key_is_held_witness :
  Z.land (current_action (holding_z healthy)) 128 = 128
  ↔ "z" ∈ keys_pressed (holding_z healthy).
Proof.
  apply (button_bit_is_set_iff_its_key_is_held (H:=healthy)
           (holding_z healthy) "z" 128).
  - exists [ClickLoadRom "game.nes"; KeyPress "z"]. reflexivity.
  - vm_compute. reflexivity.
Defined.

(** The held set and the action while z is held. *)
Lemma held_keys_are_mapped_and_action_is_a_byte_witness :
  keys_pressed (holding_z healthy) ⊆ dom keymap
  ∧ 0 ≤ current_action (holding_z healthy) < 256.
Proof.
  apply (held_keys_are_mapped_and_action_is_a_byte (H:=healthy)).
  exists [ClickLoadRom "game.nes"; KeyPress "z"]. reflexivity.
Defined.

(** The pending ticks while the loop runs. *)
Lemma at_most_one_tick_is_pending_witness :
  (length (timers (running healthy)) ≤ 1)%nat
  ∧ ∀ id, id ∈ timers (running healthy) → after_id (running healthy) = Some id.
Proof.
  apply (at_most_one_tick_is_pending (H:=healthy)).
  exists [ClickLoadRom "game.nes"; ClickStart]. reflexivity.
Defined.

(** Pause pressed while the loop runs. *)
Lemma pause_cancels_the_tick_until_start_witness :
  after_id (handle (running healthy) ClickStart) = None
  ∧ timers (handle (running healthy) ClickStart) = []
  ∧ start_btn_text (handle (running healthy) ClickStart) = "Start"
  ∧ status (handle (running healthy) ClickStart) = "Paused".
Proof.
  destruct (pause_cancels_the_tick_until_start (H:=healthy) (running healthy)
              (@Build_NESSystem healthy 0 "game.nes" (Some 1%nat)) 0%nat)
    as (H1 & H2 & H3 & H4 & _).
  - exists [ClickLoadRom "game.nes"; ClickStart]. reflexivity.
  - vm_compute. reflexivity.
  - vm_compute. reflexivity.
  - vm_compute. reflexivity.
  - exact (conj H1 (conj H2 (conj H3 H4))).
Defined.

(** Three ticks of the healthy engine. *)
Lemma steady_loop_steps_and_paints_once_per_tick_witness :
  count is_step (trace (run (ticks 3) (running healthy)))
  = (count is_step (trace (running healthy)) + 3)%nat
  ∧ count is_paint (trace (run (ticks 3) (running healthy)))
    = (count is_paint (trace (running healthy)) + 3)%nat.
Proof.
  destruct (steady_loop_steps_and_paints_once_per_tick (H:=healthy) 3
              (running healthy)
              (@Build_NESSystem healthy 0 "game.nes" (Some 1%nat)) 0%nat)
    as (H1 & H2 & _).
  - split; [|split].
    + intros s a. vm_compute. reflexivity.
    + intros s. exists s. vm_compute. reflexivity.
    + intros f. exists f. vm_compute. split; reflexivity.
  - vm_compute. reflexivity.
  - vm_compute. reflexivity.
  - vm_compute. reflexivity.
  - exists 1%nat. vm_compute. reflexivity.
  - exact (conj H1 H2).
Defined.

(** The loaded handle is closed twice. *)
Lemma NESSystem_close_is_idempotent_witness :
  (NESSystem_close (loaded healthy)).1 = Ok tt
  ∧ NESSystem_close (NESSystem_close (loaded healthy)).2
    = (Ok tt, (NESSystem_close (loaded healthy)).2).
Proof.
  destruct (NESSystem_close_is_idempotent (H:=healthy) (loaded healthy)
              (@Build_NESSystem healthy 0 "game.nes" (Some 0%nat))
              0%nat 0%nat) as (H1 & _ & _ & H4).
  - vm_compute. reflexivity.
  - vm_compute. reflexivity.
  - vm_compute. reflexivity.
  - exact (conj H1 H4).
Defined.

(** A step on the handle after it has been closed. *)
Lemma closed_handle_is_never_passed_to_the_engine_witness :
  (NESSystem_step 0 (NESSystem_close (loaded healthy)).2).1 = Ok (None, true)
  ∧ NESSystem_reset (NESSystem_close (loaded healthy)).2
    = (Ok tt, (NESSystem_close (loaded healthy)).2).
Proof.
  destruct (closed_handle_is_never_passed_to_the_engine (H:=healthy)
              (NESSystem_close (loaded healthy)).2
              (@Build_NESSystem healthy 0 "game.nes" None) 0)
    as (H1 & H2 & _).
  - vm_compute. reflexivity.
  - vm_compute. reflexivity.
  - split; [|exact H2].
    exact (f_equal fst H1).
Defined.

(** The stub engine refuses the file rom.bad. *)
Lemma failed_load_leaves_no_handle_witness :
  nes (load_rom "rom.bad" (loaded healthy)).2 = None
  ∧ status (load_rom "rom.bad" (loaded healthy)).2 = "Load failed".
Proof.
  destruct (failed_load_leaves_no_handle (H:=healthy) (loaded healthy)
              "rom.bad" (Exception "not a ROM")) as (_ & H2 & H3 & _).
  - discriminate.
  - intros h s _ _. vm_compute. reflexivity.
  - left. vm_compute. reflexivity.
  - exact (conj H2 H3).
Defined.

(** A second ROM is loaded over the first. *)
Lemma successful_load_installs_the_handle_witness :
  nes (load_rom "roms/second.nes" (loaded healthy)).2
  = Some (@Build_NESSystem healthy 1 "roms/second.nes" (Some 0%nat))
  ∧ status (load_rom "roms/second.nes" (loaded healthy)).2
    = "Loaded: second.nes".
Proof.
  destruct (successful_load_installs_the_handle (H:=healthy) (loaded healthy)
              "roms/second.nes" 0%nat 0%nat) as (_ & H2 & H3 & _).
  - discriminate.
  - intros h s _ _. vm_compute. reflexivity.
  - vm_compute. reflexivity.
  - vm_compute. reflexivity.
  - exact (conj H2 H3).
Defined.

(** The window is closed while the loop runs. *)
Lemma window_close_tears_everything_down_witness :
  destroyed (handle (running healthy) WindowClose) = true
  ∧ timers (handle (running healthy) WindowClose) = []
  ∧ alive (trace (handle (running healthy) WindowClose)) = [].
Proof.
  destruct (window_close_tears_everything_down (H:=healthy) (running healthy))
    as (H1 & H2 & H3 & _).
  - exists [ClickLoadRom "game.nes"; ClickStart]. reflexivity.
  - vm_compute. reflexivity.
  - intros h s _ _. vm_compute. reflexivity.
  - exact (conj H1 (conj H2 H3)).
Defined.

(** The jammed engine raises from [close]. *)
Lemma engine_close_failure_escapes_witness :
  (load_rom "second.nes" (loaded jammed)).1 = Raise (Exception "close fault")
  ∧ (on_close (loaded jammed)).1 = Raise (Exception "close fault")
  ∧ destroyed (on_close (loaded jammed)).2 = destroyed (loaded jammed).
Proof.
  destruct (engine_close_failure_escapes (H:=jammed) (loaded jammed)
              (@Build_NESSystem jammed 0 "game.nes" (Some 0%nat))
              0%nat 0%nat (Exception "close fault") "second.nes")
    as (H1 & _ & _ & _ & H5 & H6 & _).
  - vm_compute. reflexivity.
  - vm_compute. reflexivity.
  - vm_compute. reflexivity.
  - discriminate.
  - exact (conj H1 (conj H5 H6)).
Defined.

(** The jammed engine raises from [reset] once it has stepped. *)
Lemma engine_reset_failure_escapes_witness :
  (reset_rom (running jammed)).1 = Raise (Exception "reset fault")
  ∧ after_id (reset_rom (running jammed)).2 = None
  ∧ start_btn_text (reset_rom (running jammed)).2
    = start_btn_text (running jammed).
Proof.
  destruct (engine_reset_failure_escapes (H:=jammed) (running jammed)
              (@Build_NESSystem jammed 0 "game.nes" (Some 1%nat))
              1%nat 1%nat (Exception "reset fault"))
    as (H1 & H2 & _ & H4 & _).
  - vm_compute. reflexivity.
  - vm_compute. reflexivity.
  - vm_compute. reflexivity.
  - exact (conj H1 (conj H2 H4)).
Defined.

(** The first step of a run started with z held. *)
Lemma engine_only_sees_byte_actions_witness :
  EnvStep 0 128 ∈ trace (started_holding_z healthy) ∧ 0 ≤ 128 < 256.
Proof.
  assert (Hin : EnvStep 0 128 ∈ trace (started_holding_z healthy)).
  { apply (list_elem_of_lookup_2 _ 6%nat). vm_compute. reflexivity. }
  split; [exact Hin|].
  apply (engine_only_sees_byte_actions (H:=healthy)
           (started_holding_z healthy) 0%nat 128); [|exact Hin].
  exists [ClickLoadRom "game.nes"; KeyPress "z"; ClickStart]. reflexivity.
Defined.

(** No run of the faulty engine ends in "Game Over". *)
Lemma status_never_reads_game_over_witness :
  status (third_tick faulty) ≠ "Game Over".
Proof.
  apply (status_never_reads_game_over (H:=faulty)).
  exists [ClickLoadRom "game.nes"; ClickStart; TimerFire; TimerFire].
  reflexivity.
Defined.

(** Start pressed on a freshly loaded ROM. *)
Lemma start_runs_the_first_tick_at_once_witness :
  start_btn_text (handle (loaded healthy) ClickStart) = "Pause"
  ∧ count is_step (trace (handle (loaded healthy) ClickStart))
    = S (count is_step (trace (loaded healthy))).
Proof.
  destruct (start_runs_the_first_tick_at_once (H:=healthy) (loaded healthy)
              (@Build_NESSystem healthy 0 "game.nes" (Some 0%nat)))
    as (H1 & H2 & _).
  - exists [ClickLoadRom "game.nes"]. reflexivity.
  - vm_compute. reflexivity.
  - vm_compute. reflexivity.
  - vm_compute. reflexivity.
  - exact (conj H1 H2).
Defined.
